(** * Agent-E core: the pause skill and the Playwright manager

    A shallow embedding of [ae/core/skills/pause_flow.py] and of
    [ae/core/playwright_manager.py].

    Python values are modelled as the code has them: [int] is [Z] (unbounded),
    [float] is a binary64 value of [spec_float], [str] is [string].  A call
    that can raise returns a [result]; a method that also changes attributes
    or talks to the browser is a function from the world to a world and a
    result. *)

From Stdlib Require Import String Ascii List ZArith Lia Bool Arith PeanoNat.
From Stdlib Require Import DecimalString.
From Stdlib Require Import Floats.SpecFloat.
Import ListNotations.
Open Scope string_scope.

(** ** Python exceptions and results *)

(** The classes of [Exception] the two modules meet. *)
Inductive exn_class : Type :=
| ValueError
| OverflowError
| AttributeError
| RecursionError
| PlaywrightError
| OtherError.

(** What a [raise] carries: an instance of [Exception], with its class and
    its message, or [asyncio.CancelledError()], the [BaseException] that the
    event loop throws into a coroutine at an [await] when [cancel()] is
    called on its task. *)
Inductive exn : Type :=
| Exn (cls : exn_class) (msg : string)
| Cancelled.

(** [str(e)]; a cancellation carries no message. *)
Definition exn_msg (e : exn) : string :=
  match e with
  | Exn _ msg => msg
  | Cancelled => ""
  end.

(** [isinstance(e, Exception)]: what [except Exception] catches. *)
Definition is_Exception (e : exn) : bool :=
  match e with
  | Exn _ _ => true
  | Cancelled => false
  end.

(** [isinstance(e, ValueError)] *)
Definition is_ValueError (e : exn) : bool :=
  match e with
  | Exn ValueError _ => true
  | _ => false
  end.

Inductive result (A : Type) : Type :=
| Ok (a : A)
| Raise (e : exn).
Arguments Ok {A} a.
Arguments Raise {A} e.

(** Python's [needle in hay] on strings. *)
Fixpoint contains (needle hay : string) : bool :=
  if prefix needle hay then true
  else match hay with
       | EmptyString => false
       | String _ rest => contains needle rest
       end.

(** ** Floats *)

Module PyFloat.

Definition prec : Z := 53.
Definition emax : Z := 1024.

(** A Python [float]: the valid members are the binary64 numbers. *)
Definition float : Type := spec_float.

Definition zero : float := S754_zero false.
Definition one : float := S754_finite false 4503599627370496 (-52).

Definition ltb (x y : float) : bool := SFltb x y.
Definition eqb (x y : float) : bool := SFeqb x y.
Definition leb (x y : float) : bool := SFleb x y.

(** [float(z)] for an [int]: round to nearest, ties to even; an integer
    beyond the binary64 range raises [OverflowError]. *)
Definition of_int (z : Z) : result float :=
  match binary_normalize prec emax z 0 false with
  | S754_infinity _ =>
      Raise (Exn OverflowError "int too large to convert to float")
  | f => Ok f
  end.

(** The value of a float that is a whole number. *)
Definition whole (f : float) : option Z :=
  match f with
  | S754_zero _ => Some 0%Z
  | S754_finite _ m e =>
      if (0 <=? e)%Z then Some (Zpos m * 2 ^ e)%Z
      else if (Zpos m mod 2 ^ (- e) =? 0)%Z
           then Some (Zpos m / 2 ^ (- e))%Z
           else None
  | _ => None
  end.

(** [str(f)] on the floats it is simple for: zeros, infinities, NaN and the
    whole numbers below [10 ^ 16], which Python prints with a trailing [.0].
    Every other float is outside this printer and gives the empty string; the
    development below is stated for any printer. *)
Definition repr_whole (f : float) : string :=
  match f with
  | S754_zero s => if s then "-0.0" else "0.0"
  | S754_infinity s => if s then "-inf" else "inf"
  | S754_nan => "nan"
  | S754_finite s _ _ =>
      match whole f with
      | Some n =>
          if (n <? 10 ^ 16)%Z
          then (if s then "-" else "")
                 ++ NilZero.string_of_uint (N.to_uint (Z.to_N n)) ++ ".0"
          else ""
      | None => ""
      end
  end.

End PyFloat.

(** ** pause_flow.py *)

Module PauseFlow.
Import PyFloat.

(** The annotated argument type, [Union[int, float]]. *)
Inductive Duration : Type :=
| DInt (z : Z)
| DFloat (f : float).

(** [float(duration)] *)
Definition to_float (d : Duration) : result float :=
  match d with
  | DInt z => of_int z
  | DFloat f => Ok f
  end.

(** [duration < 0] and [duration >= 0] on the argument itself. *)
Definition negative (d : Duration) : Prop :=
  match d with
  | DInt z => (z < 0)%Z
  | DFloat f => ltb f zero = true
  end.

Definition nonnegative (d : Duration) : Prop :=
  match d with
  | DInt z => (0 <= z)%Z
  | DFloat f => leb zero f = true
  end.

(** What the coroutine does to the outside: the [asyncio.sleep] calls. *)
Inductive effect : Type :=
| Sleep (seconds : float).

Section WithRepr.

(** [str(seconds)] inside the f-string: Python's shortest round-trip
    printer for floats, taken as given. *)
Variable float_repr : float -> string.

Definition paused_message (seconds : float) : string :=
  if eqb seconds one
  then "Paused for " ++ float_repr seconds ++ " second."
  else "Paused for " ++ float_repr seconds ++ " seconds.".

(** The body of the [try]: lines 23-36.  [sleep_outcome] is what
    [await asyncio.sleep(seconds)] does when it is reached: [None] when it
    completes, [Some e] when it raises [e] ([Cancelled] when the task is
    cancelled during the sleep). *)
Definition pause_flow_try (sleep_outcome : option exn) (duration : Duration)
  : list effect * result string :=
  match to_float duration with
  | Raise e => ([], Raise e)
  | Ok seconds =>
      if ltb seconds zero
      then ([], Raise (Exn ValueError "Duration cannot be negative."))
      else match sleep_outcome with
           | Some e => ([Sleep seconds], Raise e)
           | None => ([Sleep seconds], Ok (paused_message seconds))
           end
  end.

(** The two handlers, lines 38-46, on what they catch: an instance of
    [Exception]. *)
Definition pause_flow_except (e : exn) : exn :=
  if is_ValueError e
  then if contains "negative" (exn_msg e)
       then Exn ValueError "Duration cannot be negative."
       else Exn ValueError
              "Invalid duration. Please provide a valid number of seconds."
  else Exn ValueError ("Error while pausing: " ++ exn_msg e).

Definition pause_flow_with (sleep_outcome : option exn)
           (duration : Duration) : list effect * result string :=
  match pause_flow_try sleep_outcome duration with
  | (tr, Ok s) => (tr, Ok s)
  | (tr, Raise e) =>
      if is_Exception e
      then (tr, Raise (pause_flow_except e))
      else (tr, Raise e)
  end.

(** [pause_flow(duration)] with a sleep that runs to its end. *)
Definition pause_flow (duration : Duration) : list effect * result string :=
  pause_flow_with None duration.

End WithRepr.

End PauseFlow.


(** ** playwright_manager.py *)

Module Manager.

(** *** The browser library's objects *)

(** A directory handed to the browser: the configured one (the text of
    [BROWSER_STORAGE_DIR], or the empty string) or the [n]-th directory that
    [tempfile.mkdtemp()] created. *)
Inductive Path : Type :=
| ConfiguredDir (text : string)
| TempDir (n : nat).

(** A tab.  [page_listeners] holds the events a handler was attached to with
    [page.on]. *)
Record Page : Type := mkPage {
  page_id : nat;
  page_url : string;
  page_closed : bool;
  page_listeners : list string
}.

(** A persistent browser context: its tabs in the order they were opened and
    the functions exposed to them. *)
Record BrowserContext : Type := mkContext {
  ctx_id : nat;
  ctx_user_dir : Path;
  ctx_headless : bool;
  pages : list Page;
  ctx_exposed : list string
}.

Record Playwright : Type := mkPlaywright { pw_id : nat }.

(** An [asyncio.Event]: its identity and its flag. *)
Record Event : Type := mkEvent { ev_id : nat; ev_is_set : bool }.

(** *** Calls that leave the manager *)

(** The calls into Playwright, the UI manager, [tempfile] and the event
    loop, with their arguments.  Objects are named by their identifiers. *)
Inductive Call : Type :=
| PlaywrightStart
| PlaywrightStop (pw : nat)
| LaunchPersistentContext (user_dir : Path) (headless : bool)
| Mkdtemp (n : nat)
| ContextClose (ctx : nat)
| NewPage (ctx : nat)
| PageClose (page : nat)
| Goto (page : nat) (url : string)
| PageOn (page : nat) (event : string)
| ExposeFunction (ctx : nat) (name : string)
| Evaluate (page : nat) (js_code : string)
| EvalOnSelector (page : nat) (selector : string) (js_code : string)
| NewUIManager (ui : nat)
| NewEvent (ev : nat)
| UiShowOverlay (page : nat)
| UiNewSystemMessage (message : string)
| UiNewUserMessage (message : string)
| UiUpdateOverlayState (is_collapsed : bool)
| UiUpdateOverlayChatHistory (page : nat)
| UiCommandCompleted (page : nat) (command : string)
                     (elapsed_time : option PyFloat.float).

(** *** The manager's state *)

(** The attributes of a [PlaywrightManager] object.  An attribute that
    [__init__] or a method has not assigned yet is [None]. *)
Record Instance : Type := mkInstance {
  obj_id : nat;
  __initialized : bool;
  __async_initialize_done : bool;
  browser_type : option string;
  isheadless : option bool;
  user_response_event : option Event;
  user_response : option string;
  ui_manager : option nat
}.

(** The class attributes, and what the process shares with the outside:
    the allocator of fresh objects, the environment variable, the outcome of
    the next fallible calls ([Some e]: the call raises [e]; [None], or no
    entry left: it succeeds), the calls made so far, oldest first, and where
    the browser ends up when it is sent to an address: [landing n url] is
    what [page.url] reports once a [goto(url)] made after [n] earlier calls
    has returned (the address after redirects, in the browser's spelling). *)
Record World : Type := mkWorld {
  _instance : option Instance;
  _playwright : option Playwright;
  _browser_context : option BrowserContext;
  next_id : nat;
  BROWSER_STORAGE_DIR : option string;
  faults : list (option exn);
  trace : list Call;
  landing : nat -> string -> string
}.

Definition _homepage : string := "https://www.google.com".

(** The interpreter's recursion limit, as the number of nested
    [get_current_page] calls it lets through. *)
Definition recursion_limit : nat := 1000.

(** A process in which nothing was constructed yet. *)
Definition fresh_world (dir : option string) (fs : list (option exn))
           (land : nat -> string -> string) : World :=
  mkWorld None None None 0 dir fs [] land.

(** A browser that reports an address with the path it added. *)
Definition with_path : nat -> string -> string := fun _ url => url ++ "/".

(** *** Attribute updates *)

Definition set_instance (i : option Instance) (w : World) : World :=
  mkWorld i (_playwright w) (_browser_context w) (next_id w)
          (BROWSER_STORAGE_DIR w) (faults w) (trace w) (landing w).

Definition set_playwright (p : option Playwright) (w : World) : World :=
  mkWorld (_instance w) p (_browser_context w) (next_id w)
          (BROWSER_STORAGE_DIR w) (faults w) (trace w) (landing w).

Definition set_browser_context (c : option BrowserContext) (w : World) : World :=
  mkWorld (_instance w) (_playwright w) c (next_id w)
          (BROWSER_STORAGE_DIR w) (faults w) (trace w) (landing w).

Definition set_next_id (n : nat) (w : World) : World :=
  mkWorld (_instance w) (_playwright w) (_browser_context w) n
          (BROWSER_STORAGE_DIR w) (faults w) (trace w) (landing w).

Definition set_faults (fs : list (option exn)) (w : World) : World :=
  mkWorld (_instance w) (_playwright w) (_browser_context w) (next_id w)
          (BROWSER_STORAGE_DIR w) fs (trace w) (landing w).

Definition log (c : Call) (w : World) : World :=
  mkWorld (_instance w) (_playwright w) (_browser_context w) (next_id w)
          (BROWSER_STORAGE_DIR w) (faults w) (trace w ++ [c]) (landing w).

Definition with_initialized (b : bool) (i : Instance) : Instance :=
  mkInstance (obj_id i) b (__async_initialize_done i) (browser_type i)
             (isheadless i) (user_response_event i) (user_response i)
             (ui_manager i).

Definition with_async_initialize_done (b : bool) (i : Instance) : Instance :=
  mkInstance (obj_id i) (__initialized i) b (browser_type i)
             (isheadless i) (user_response_event i) (user_response i)
             (ui_manager i).

Definition with_browser_type (s : string) (i : Instance) : Instance :=
  mkInstance (obj_id i) (__initialized i) (__async_initialize_done i) (Some s)
             (isheadless i) (user_response_event i) (user_response i)
             (ui_manager i).

Definition with_isheadless (b : bool) (i : Instance) : Instance :=
  mkInstance (obj_id i) (__initialized i) (__async_initialize_done i)
             (browser_type i) (Some b) (user_response_event i)
             (user_response i) (ui_manager i).

Definition with_user_response_event (e : Event) (i : Instance) : Instance :=
  mkInstance (obj_id i) (__initialized i) (__async_initialize_done i)
             (browser_type i) (isheadless i) (Some e) (user_response i)
             (ui_manager i).

Definition with_user_response (s : string) (i : Instance) : Instance :=
  mkInstance (obj_id i) (__initialized i) (__async_initialize_done i)
             (browser_type i) (isheadless i) (user_response_event i) (Some s)
             (ui_manager i).

Definition with_ui_manager (u : nat) (i : Instance) : Instance :=
  mkInstance (obj_id i) (__initialized i) (__async_initialize_done i)
             (browser_type i) (isheadless i) (user_response_event i)
             (user_response i) (Some u).

(** *** Methods as world transformers *)

(** A method runs in a world and leaves a world and either a value or the
    exception it raised; what it did before raising stays done. *)
Definition M (A : Type) : Type := World -> World * result A.

Definition ret {A : Type} (a : A) : M A := fun w => (w, Ok a).

Definition raise {A : Type} (e : exn) : M A := fun w => (w, Raise e).

Definition bind {A B : Type} (m : M A) (k : A -> M B) : M B :=
  fun w => match m w with
           | (w', Ok a) => k a w'
           | (w', Raise e) => (w', Raise e)
           end.

(** [try: body  except Exception as e: handler]: what is not an
    [Exception] passes through. *)
Definition try_except {A : Type} (body : M A) (handler : exn -> M A) : M A :=
  fun w => match body w with
           | (w', Ok a) => (w', Ok a)
           | (w', Raise e) =>
               if is_Exception e then handler e w' else (w', Raise e)
           end.

Notation "x <- m ;; k" := (bind m (fun x => k))
  (at level 61, m at next level, right associativity).
Notation "m ;; k" := (bind m (fun _ => k))
  (at level 61, right associativity).

Definition gets {A : Type} (f : World -> A) : M A := fun w => (w, Ok (f w)).

Definition modify (f : World -> World) : M unit := fun w => (f w, Ok tt).

(** A fresh object identifier. *)
Definition fresh : M nat :=
  fun w => (set_next_id (S (next_id w)) w, Ok (next_id w)).

(** A synchronous call that is taken to return: it is recorded. *)
Definition call (c : Call) : M unit := fun w => (log c w, Ok tt).

(** An awaited call into the browser or the UI: it is recorded, and it
    raises when the outside says so. *)
Definition await (c : Call) : M unit :=
  fun w =>
    let w1 := log c w in
    match faults w1 with
    | Some e :: rest => (set_faults rest w1, Raise e)
    | None :: rest => (set_faults rest w1, Ok tt)
    | [] => (w1, Ok tt)
    end.

(** [for x in xs: body(x)] *)
Fixpoint for_each {A : Type} (xs : list A) (body : A -> M unit) : M unit :=
  match xs with
  | [] => ret tt
  | x :: rest => body x ;; for_each rest body
  end.

(** *** Attribute access on [self]

    [__new__] is the only source of instances, so [self] is always the
    object in [_instance]; touching an attribute before any construction is
    the [AttributeError] of [None]. *)

Definition none_has_no (attr : string) : exn :=
  Exn AttributeError ("'NoneType' object has no attribute '" ++ attr ++ "'").

Definition self_has_no (attr : string) : exn :=
  Exn AttributeError
      ("'PlaywrightManager' object has no attribute '" ++ attr ++ "'").

(** Reading an attribute that every instance has. *)
Definition self_get {A : Type} (attr : string) (get : Instance -> A) : M A :=
  fun w => match _instance w with
           | None => (w, Raise (none_has_no attr))
           | Some self => (w, Ok (get self))
           end.

(** Reading an attribute that may not have been assigned yet. *)
Definition self_attr {A : Type} (attr : string) (get : Instance -> option A)
  : M A :=
  fun w => match _instance w with
           | None => (w, Raise (none_has_no attr))
           | Some self =>
               match get self with
               | Some a => (w, Ok a)
               | None => (w, Raise (self_has_no attr))
               end
           end.

(** Assigning an attribute. *)
Definition self_set (attr : string) (upd : Instance -> Instance) : M unit :=
  fun w => match _instance w with
           | None => (w, Raise (none_has_no attr))
           | Some self => (set_instance (Some (upd self)) w, Ok tt)
           end.

(** *** Operations of the browser objects *)

Definition map_context (f : BrowserContext -> BrowserContext) (w : World)
  : World :=
  match _browser_context w with
  | Some c => set_browser_context (Some (f c)) w
  | None => w
  end.

Definition add_page (ctx : nat) (p : Page) (c : BrowserContext)
  : BrowserContext :=
  if Nat.eqb (ctx_id c) ctx
  then mkContext (ctx_id c) (ctx_user_dir c) (ctx_headless c)
                 (pages c ++ [p]) (ctx_exposed c)
  else c.

Definition add_exposed (ctx : nat) (name : string) (c : BrowserContext)
  : BrowserContext :=
  if Nat.eqb (ctx_id c) ctx
  then mkContext (ctx_id c) (ctx_user_dir c) (ctx_headless c)
                 (pages c) (ctx_exposed c ++ [name])
  else c.

Definition update_page (page : nat) (f : Page -> Page) (c : BrowserContext)
  : BrowserContext :=
  mkContext (ctx_id c) (ctx_user_dir c) (ctx_headless c)
            (map (fun p => if Nat.eqb (page_id p) page then f p else p)
                 (pages c))
            (ctx_exposed c).

(** [await context.new_page()] *)
Definition new_page (browser : BrowserContext) : M Page :=
  await (NewPage (ctx_id browser)) ;;
  n <- fresh ;;
  let page := mkPage n "about:blank" false [] in
  modify (map_context (add_page (ctx_id browser) page)) ;;
  ret page.

(** [await page.close()] *)
Definition page_close (page : Page) : M unit :=
  await (PageClose (page_id page)) ;;
  modify (map_context (update_page (page_id page)
    (fun p => mkPage (page_id p) (page_url p) true (page_listeners p)))).

(** [await page.goto(url)]: once it has returned, the page is where the
    browser ended up. *)
Definition page_goto (page : Page) (url : string) : M unit :=
  made <- gets (fun w => length (trace w)) ;;
  await (Goto (page_id page) url) ;;
  landed <- gets (fun w => landing w made url) ;;
  modify (map_context (update_page (page_id page)
    (fun p => mkPage (page_id p) landed (page_closed p) (page_listeners p)))).

(** [page.on(event, handler)] *)
Definition page_on (page : Page) (event : string) : M unit :=
  call (PageOn (page_id page) event) ;;
  modify (map_context (update_page (page_id page)
    (fun p => mkPage (page_id p) (page_url p) (page_closed p)
                     (page_listeners p ++ [event])))).

(** [await context.expose_function(name, handler)] *)
Definition expose_function (context : option BrowserContext) (name : string)
  : M unit :=
  match context with
  | None => raise (none_has_no "expose_function")
  | Some c =>
      await (ExposeFunction (ctx_id c) name) ;;
      modify (map_context (add_exposed (ctx_id c) name))
  end.

(** [not page.is_closed()] *)
Definition is_open (page : Page) : bool := negb (page_closed page).

(** [pages[-1] if pages else None] *)
Fixpoint last_page (ps : list Page) : option Page :=
  match ps with
  | [] => None
  | [p] => Some p
  | _ :: rest => last_page rest
  end.

(** *** The class *)

(** [__new__], lines 31-39. *)
Definition __new__ : M nat :=
  fun w =>
    match _instance w with
    | None =>
        let self :=
          mkInstance (next_id w) false false None None None None None in
        (set_next_id (S (next_id w)) (set_instance (Some self) w),
         Ok (obj_id self))
    | Some self => (w, Ok (obj_id self))
    end.

(** [__init__], lines 42-58. *)
Definition __init__ (browser_type : string) (headless gui_input_mode : bool)
  : M unit :=
  initialized <- self_get "__initialized" __initialized ;;
  if initialized then ret tt
  else
    self_set "browser_type" (with_browser_type browser_type) ;;
    self_set "isheadless" (with_isheadless headless) ;;
    self_set "__initialized" (with_initialized true) ;;
    ev <- fresh ;;
    call (NewEvent ev) ;;
    self_set "user_response_event"
             (with_user_response_event (mkEvent ev false)) ;;
    if gui_input_mode
    then ui <- fresh ;;
         call (NewUIManager ui) ;;
         self_set "ui_manager" (with_ui_manager ui)
    else ret tt.

(** [PlaywrightManager(browser_type, headless, gui_input_mode)]: the class is
    called, which runs [__new__] and then [__init__] on what it returned. *)
Definition PlaywrightManager (browser_type : string)
           (headless gui_input_mode : bool) : M nat :=
  self <- __new__ ;;
  __init__ browser_type headless gui_input_mode ;;
  ret self.

(** [start_playwright], lines 98-103. *)
Definition start_playwright : M unit :=
  pw <- gets _playwright ;;
  match pw with
  | Some _ => ret tt
  | None =>
      await PlaywrightStart ;;
      n <- fresh ;;
      modify (set_playwright (Some (mkPlaywright n)))
  end.

(** [stop_playwright], lines 106-118. *)
Definition stop_playwright : M unit :=
  ctx <- gets _browser_context ;;
  match ctx with
  | Some c =>
      await (ContextClose (ctx_id c)) ;;
      modify (set_browser_context None)
  | None => ret tt
  end ;;
  pw <- gets _playwright ;;
  match pw with
  | Some p =>
      await (PlaywrightStop (pw_id p)) ;;
      modify (set_playwright None)
  | None => ret tt
  end.

(** [tempfile.mkdtemp()] *)
Definition mkdtemp : M Path :=
  n <- fresh ;;
  call (Mkdtemp n) ;;
  ret (TempDir n).

(** [PlaywrightManager._browser_context = await
    PlaywrightManager._playwright.chromium.launch_persistent_context(user_dir,
    channel="chrome", headless=self.isheadless, ...)]: lines 126-133 and
    138-145.  A launched context opens with one blank tab. *)
Definition launch_persistent_context (user_dir : Path) : M unit :=
  pw <- gets _playwright ;;
  match pw with
  | None => raise (none_has_no "chromium")
  | Some _ =>
      headless <- self_attr "isheadless" isheadless ;;
      await (LaunchPersistentContext user_dir headless) ;;
      c <- fresh ;;
      p <- fresh ;;
      modify (set_browser_context
                (Some (mkContext c user_dir headless
                                 [mkPage p "about:blank" false []] [])))
  end.

Definition target_closed : string :=
  "Target page, context or browser has been closed".

Definition chrome_not_found : string :=
  "Chromium distribution 'chrome' is not found ".

Definition chrome_not_installed : string :=
  "Chrome is not installed on this device. Install Google Chrome or install playwright using 'playwright install chrome'. Refer to the readme for more information.".

(** [create_browser_context], lines 121-151. *)
Definition create_browser_context : M unit :=
  user_dir <- gets (fun w => match BROWSER_STORAGE_DIR w with
                             | Some s => s
                             | None => ""
                             end) ;;
  bt <- self_attr "browser_type" browser_type ;;
  if String.eqb bt "chromium"
  then
    try_except
      (launch_persistent_context (ConfiguredDir user_dir))
      (fun e =>
         if contains target_closed (exn_msg e)
         then new_user_dir <- mkdtemp ;;
              launch_persistent_context new_user_dir
         else if contains chrome_not_found (exn_msg e)
         then raise (Exn ValueError chrome_not_installed)
         else raise e)
  else raise (Exn ValueError ("Unsupported browser type: " ++ bt)).

(** [ensure_browser_context], lines 81-86. *)
Definition ensure_browser_context : M unit :=
  ctx <- gets _browser_context ;;
  match ctx with
  | None => create_browser_context
  | Some _ => ret tt
  end.

(** [get_browser_context], lines 154-159. *)
Definition get_browser_context : M (option BrowserContext) :=
  ensure_browser_context ;;
  gets _browser_context.

(** [get_current_page], lines 176-199, with [depth] nested calls left before
    the interpreter raises [RecursionError]. *)
Fixpoint get_current_page_at (depth : nat) : M Page :=
  match depth with
  | O => raise (Exn RecursionError "maximum recursion depth exceeded")
  | S depth' =>
      try_except
        (browser <- get_browser_context ;;
         match browser with
         | None => raise (none_has_no "pages")
         | Some b =>
             let pages := filter is_open (pages b) in
             match last_page pages with
             | Some page => ret page
             | None => new_page b
             end
         end)
        (fun _ =>
           modify (set_browser_context None) ;;
           _ <- get_browser_context ;;
           get_current_page_at depth')
  end.

Definition get_current_page : M Page := get_current_page_at recursion_limit.

(** [get_current_url], lines 162-174. *)
Definition get_current_url : M (option string) :=
  try_except
    (current_page <- get_current_page ;;
     ret (Some (page_url current_page)))
    (fun _ => ret None).

(** [close_all_tabs], lines 202-213. *)
Definition close_all_tabs (keep_first_tab : bool) : M unit :=
  browser_context <- get_browser_context ;;
  match browser_context with
  | None => raise (none_has_no "pages")
  | Some b =>
      let pages_to_close := if keep_first_tab then tl (pages b) else pages b in
      for_each pages_to_close page_close
  end.

(** [close_except_specified_tab], lines 216-226. *)
Definition close_except_specified_tab (page_to_keep : Page) : M unit :=
  browser_context <- get_browser_context ;;
  match browser_context with
  | None => raise (none_has_no "pages")
  | Some b =>
      for_each (pages b)
               (fun page =>
                  if negb (Nat.eqb (page_id page) (page_id page_to_keep))
                  then page_close page
                  else ret tt)
  end.

(** [go_to_homepage], lines 229-231. *)
Definition go_to_homepage : M unit :=
  page <- get_current_page ;;
  page_goto page _homepage.

(** [set_navigation_handler], lines 234-236. *)
Definition set_navigation_handler : M unit :=
  page <- get_current_page ;;
  _ <- self_attr "ui_manager" ui_manager ;;
  page_on page "domcontentloaded".

(** [set_overlay_state_handler], lines 239-242. *)
Definition set_overlay_state_handler : M unit :=
  context <- get_browser_context ;;
  expose_function context "overlay_state_changed".

(** [overlay_state_handler], lines 245-249. *)
Definition overlay_state_handler (is_collapsed : bool) : M unit :=
  page <- get_current_page ;;
  _ <- self_attr "ui_manager" ui_manager ;;
  call (UiUpdateOverlayState is_collapsed) ;;
  if negb is_collapsed
  then await (UiUpdateOverlayChatHistory (page_id page))
  else ret tt.

(** [set_user_response_handler], lines 252-254. *)
Definition set_user_response_handler : M unit :=
  context <- get_browser_context ;;
  expose_function context "user_response".

(** [setup_handlers], lines 89-95. *)
Definition setup_handlers : M unit :=
  set_overlay_state_handler ;;
  set_user_response_handler ;;
  set_navigation_handler.

(** [async_initialize], lines 61-78. *)
Definition async_initialize : M unit :=
  done <- self_get "__async_initialize_done" __async_initialize_done ;;
  if done then ret tt
  else
    start_playwright ;;
    ensure_browser_context ;;
    setup_handlers ;;
    go_to_homepage ;;
    self_set "__async_initialize_done" (with_async_initialize_done true).

(** [log_user_message], lines 333-340. *)
Definition log_user_message (message : string) : M unit :=
  _ <- self_attr "ui_manager" ui_manager ;;
  call (UiNewUserMessage message).

(** [log_system_message], lines 343-350. *)
Definition log_system_message (message : string) : M unit :=
  _ <- self_attr "ui_manager" ui_manager ;;
  call (UiNewSystemMessage message).

(** [command_completed], lines 353-359. *)
Definition command_completed (command : string)
           (elapsed_time : option PyFloat.float) : M unit :=
  page <- get_current_page ;;
  _ <- self_attr "ui_manager" ui_manager ;;
  await (UiCommandCompleted (page_id page) command elapsed_time).

Definition add_pulsate_js : string :=
  "e => {
                            let originalBorderStyle = e.style.border;
                            e.classList.add('ui_automation_pulsate');
                            e.addEventListener('animationend', () => {
                                e.classList.remove('ui_automation_pulsate')
                            });}".

Definition remove_pulsate_js : string :=
  "e => e.classList.remove('ui_automation_pulsate')".

(** [highlight_element], lines 275-293. *)
Definition highlight_element (selector : string) (add_highlight : bool)
  : M unit :=
  try_except
    (page <- get_current_page ;;
     if add_highlight
     then await (EvalOnSelector (page_id page) selector add_pulsate_js)
     else await (EvalOnSelector (page_id page) selector remove_pulsate_js))
    (fun _ => ret tt).

(** [self.user_response_event.set()] and [.clear()] *)
Definition event_set : M unit :=
  ev <- self_attr "user_response_event" user_response_event ;;
  self_set "user_response_event"
           (with_user_response_event (mkEvent (ev_id ev) true)).

Definition event_clear : M unit :=
  ev <- self_attr "user_response_event" user_response_event ;;
  self_set "user_response_event"
           (with_user_response_event (mkEvent (ev_id ev) false)).

(** [receive_user_response], lines 295-299. *)
Definition receive_user_response (response : string) : M unit :=
  self_set "user_response" (with_user_response response) ;;
  event_set.

Section WithEscape.

(** [ae.utils.js_helper.escape_js_message], which is not part of these
    sources: taken as given. *)
Variable escape_js_message : string -> string.

(** [notify_user], lines 257-273. *)
Definition notify_user (message : string) : M unit :=
  let safe_message := escape_js_message message in
  _ <- self_attr "ui_manager" ui_manager ;;
  call (UiNewSystemMessage safe_message) ;;
  try_except
    (let js_code := "addSystemMessage(" ++ safe_message ++ ", false);" in
     page <- get_current_page ;;
     await (Evaluate (page_id page) js_code))
    (fun _ => ret tt).

(** [prompt_user], lines 312-323: from the call to the point where the
    coroutine reaches [await self.user_response_event.wait()]. *)
Definition prompt_user_begin (message : string) : M unit :=
  page <- get_current_page ;;
  _ <- self_attr "ui_manager" ui_manager ;;
  await (UiShowOverlay (page_id page)) ;;
  log_system_message message ;;
  let safe_message := escape_js_message message in
  let js_code :=
    "addSystemMessage(" ++ safe_message
      ++ ", is_awaiting_user_response=true);" in
  await (Evaluate (page_id page) js_code) ;;
  _ <- self_attr "user_response_event" user_response_event ;;
  ret tt.

(** [prompt_user], lines 326-331: from the return of [wait()] to the end. *)
Definition prompt_user_end : M string :=
  result <- self_attr "user_response" user_response ;;
  event_clear ;;
  self_set "user_response" (with_user_response "") ;;
  _ <- self_attr "ui_manager" ui_manager ;;
  call (UiNewUserMessage result) ;;
  ret result.

(** *** The prompt coroutine on the event loop

    [prompt_user] gives the loop back at [wait()] when the event is not set;
    [receive_user_response] never awaits, so it runs in one piece.  What
    [prompt_user] does before [wait()] neither reads nor writes the flag of
    the event or the mailbox, and is run in one piece too.  A waiter that
    [set()] released is only scheduled: it resumes at a later turn of the
    loop, and other callbacks may run before it. *)
Inductive Coroutine : Type :=
| NotStarted (message : string)
| Waiting
| Released
| Returned (result : string)
| Failed (e : exn).

(** What the loop runs next: a [receive_user_response(response)] callback
    or the prompt coroutine. *)
Inductive Turn : Type :=
| Receive (response : string)
| Prompt.

Definition is_set (w : World) : bool :=
  match _instance w with
  | Some self =>
      match user_response_event self with
      | Some ev => ev_is_set ev
      | None => false
      end
  | None => false
  end.

Definition mailbox (w : World) : option string :=
  match _instance w with
  | Some self => user_response self
  | None => None
  end.

Definition finish (w : World) : World * Coroutine :=
  match prompt_user_end w with
  | (w', Ok result) => (w', Returned result)
  | (w', Raise e) => (w', Failed e)
  end.

Definition turn (t : Turn) (s : World * Coroutine) : World * Coroutine :=
  let (w, co) := s in
  match t with
  | Receive response =>
      let released := negb (is_set w) in
      let w' := fst (receive_user_response response w) in
      match co with
      | Waiting => (w', if released && is_set w' then Released else Waiting)
      | _ => (w', co)
      end
  | Prompt =>
      match co with
      | NotStarted message =>
          match prompt_user_begin message w with
          | (w', Raise e) => (w', Failed e)
          | (w', Ok _) => if is_set w' then finish w' else (w', Waiting)
          end
      | Released => finish w
      | _ => (w, co)
      end
  end.

Definition run (ts : list Turn) (s : World * Coroutine) : World * Coroutine :=
  fold_left (fun s t => turn t s) ts s.

Definition finished (co : Coroutine) : bool :=
  match co with
  | Returned _ | Failed _ => true
  | _ => false
  end.

(** [prompt_user(message)] when nothing else runs on the loop: it returns
    only if the event is already set when it reaches [wait()]. *)
Definition prompt_user (message : string) (w : World) : World * Coroutine :=
  turn Prompt (w, NotStarted message).

(** Every entry point of the class, with its arguments; [resume_prompt_user]
    is a released [prompt_user] coroutine taking up after [wait()]. *)
Inductive Method : Type :=
| call_PlaywrightManager (browser_type : string)
                         (headless gui_input_mode : bool)
| call_async_initialize
| call_ensure_browser_context
| call_setup_handlers
| call_start_playwright
| call_stop_playwright
| call_create_browser_context
| call_get_browser_context
| call_get_current_url
| call_get_current_page
| call_close_all_tabs (keep_first_tab : bool)
| call_close_except_specified_tab (page_to_keep : Page)
| call_go_to_homepage
| call_set_navigation_handler
| call_set_overlay_state_handler
| call_overlay_state_handler (is_collapsed : bool)
| call_set_user_response_handler
| call_notify_user (message : string)
| call_highlight_element (selector : string) (add_highlight : bool)
| call_receive_user_response (response : string)
| call_prompt_user (message : string)
| resume_prompt_user
| call_log_user_message (message : string)
| call_log_system_message (message : string)
| call_command_completed (command : string)
                         (elapsed_time : option PyFloat.float).

(** The world a method leaves behind. *)
Definition invoke (m : Method) (w : World) : World :=
  match m with
  | call_PlaywrightManager bt h g => fst (PlaywrightManager bt h g w)
  | call_async_initialize => fst (async_initialize w)
  | call_ensure_browser_context => fst (ensure_browser_context w)
  | call_setup_handlers => fst (setup_handlers w)
  | call_start_playwright => fst (start_playwright w)
  | call_stop_playwright => fst (stop_playwright w)
  | call_create_browser_context => fst (create_browser_context w)
  | call_get_browser_context => fst (get_browser_context w)
  | call_get_current_url => fst (get_current_url w)
  | call_get_current_page => fst (get_current_page w)
  | call_close_all_tabs k => fst (close_all_tabs k w)
  | call_close_except_specified_tab p => fst (close_except_specified_tab p w)
  | call_go_to_homepage => fst (go_to_homepage w)
  | call_set_navigation_handler => fst (set_navigation_handler w)
  | call_set_overlay_state_handler => fst (set_overlay_state_handler w)
  | call_overlay_state_handler c => fst (overlay_state_handler c w)
  | call_set_user_response_handler => fst (set_user_response_handler w)
  | call_notify_user m => fst (notify_user m w)
  | call_highlight_element s a => fst (highlight_element s a w)
  | call_receive_user_response r => fst (receive_user_response r w)
  | call_prompt_user m => fst (prompt_user m w)
  | resume_prompt_user => fst (finish w)
  | call_log_user_message m => fst (log_user_message m w)
  | call_log_system_message m => fst (log_system_message m w)
  | call_command_completed c t => fst (command_completed c t w)
  end.

(** The world after a sequence of method calls. *)
Definition after (ms : list Method) (w : World) : World :=
  fold_left (fun w m => invoke m w) ms w.

Definition is_receive_user_response (m : Method) : bool :=
  match m with
  | call_receive_user_response _ => true
  | _ => false
  end.

Definition is_prompt_user (m : Method) : bool :=
  match m with
  | call_prompt_user _ | resume_prompt_user => true
  | _ => false
  end.

(** *** Several prompt coroutines on the event loop

    The loop holds any number of [prompt_user] coroutines.  [Event.set()]
    on a cleared event releases every coroutine that waits on it; each of
    them takes up at a later turn of the loop, in [prompt_user_end], without
    looking at the flag again. *)
Definition release (co : Coroutine) : Coroutine :=
  match co with
  | Waiting => Released
  | _ => co
  end.

(** What the loop runs next: a method call that runs in one piece, or the
    [i]-th coroutine, up to its next [wait()] or to its end. *)
Inductive Step : Type :=
| Callback (m : Method)
| Resume (i : nat).

Fixpoint set_nth {A : Type} (i : nat) (x : A) (xs : list A) : list A :=
  match xs, i with
  | [], _ => []
  | _ :: rest, O => x :: rest
  | y :: rest, S i' => y :: set_nth i' x rest
  end.

Definition loop_step (st : Step) (s : World * list Coroutine)
  : World * list Coroutine :=
  let (w, cos) := s in
  match st with
  | Callback m =>
      let w' := invoke m w in
      (w', if negb (is_set w) && is_set w' then map release cos else cos)
  | Resume i =>
      match nth_error cos i with
      | Some co =>
          let (w', co') := turn Prompt (w, co) in
          (w', set_nth i co' cos)
      | None => (w, cos)
      end
  end.

Definition loop (sts : list Step) (s : World * list Coroutine)
  : World * list Coroutine :=
  fold_left (fun s st => loop_step st s) sts s.


End WithEscape.

(** *** Vocabulary of the statements *)

(** The directory [create_browser_context] reads from the environment. *)
Definition configured_dir (w : World) : Path :=
  ConfiguredDir (match BROWSER_STORAGE_DIR w with
                 | Some s => s
                 | None => ""
                 end).

(** The context a successful launch installs. *)
Definition launched (w : World) (user_dir : Path) (headless : bool)
  : BrowserContext :=
  mkContext (next_id w) user_dir headless
            [mkPage (S (next_id w)) "about:blank" false []] [].

(** The part of [self] the handshake lives in: the initialization flag,
    the event and the mailbox. *)
Definition handshake (w : World)
  : option (bool * option Event * option string) :=
  match _instance w with
  | Some self =>
      Some (__initialized self, user_response_event self, user_response self)
  | None => None
  end.

(** A method that leaves the handshake alone. *)
Definition keeps {A : Type} (m : M A) : Prop :=
  forall w, handshake (fst (m w)) = handshake w.

(** An instance that [__init__] has not run on has no event yet. *)
Definition sound (w : World) : Prop :=
  match handshake w with
  | Some (false, Some _, _) => False
  | _ => True
  end.

(** A sequence of [PlaywrightManager(...)] calls, one per triple of
    arguments: what each returned, and the world after the last. *)
Fixpoint construct_all (args : list (string * bool * bool)) (w : World)
  : World * list (result nat) :=
  match args with
  | [] => (w, [])
  | (bt, h, g) :: rest =>
      let (w1, r) := PlaywrightManager bt h g w in
      let (w2, rs) := construct_all rest w1 in
      (w2, r :: rs)
  end.

(** A process after [PlaywrightManager("chromium", False, True)] and
    [async_initialize()], with a browser that never fails. *)
Definition ready_world : World :=
  fst (async_initialize
         (fst (PlaywrightManager "chromium" false true
                                 (fresh_world None [] with_path)))).

(** A process after [PlaywrightManager("chromium", False, False)]: no UI
    manager. *)
Definition no_ui_world : World :=
  fst (PlaywrightManager "chromium" false false
                         (fresh_world None [] with_path)).

(** The world after one more tab was opened in the context. *)
Definition open_tab (w : World) : World :=
  match _browser_context w with
  | Some c => fst (new_page c w)
  | None => w
  end.

(** The context a world holds (an empty one when it holds none). *)
Definition context_of (w : World) : BrowserContext :=
  match _browser_context w with
  | Some c => c
  | None => mkContext 0 (ConfiguredDir "") false [] []
  end.

(** The ready process with three open tabs. *)
Definition three_tab_world : World := open_tab (open_tab ready_world).

(** [m] twice in a row, the second call made when the first returned. *)
Definition twice (m : M unit) : M unit := m ;; m.

(** A method that leaves every attribute of [self] alone. *)
Definition keeps_self {A : Type} (m : M A) : Prop :=
  forall w, _instance (fst (m w)) = _instance w.

(** A page after [close()]. *)
Definition closed_page (p : Page) : Page :=
  mkPage (page_id p) (page_url p) true (page_listeners p).

(** A page that has landed on [url]. *)
Definition page_at (url : string) (p : Page) : Page :=
  mkPage (page_id p) url (page_closed p) (page_listeners p).

(** The pages after [close()] on each page whose identifier is in [ids]. *)
Definition close_all (ids : list nat) (ps : list Page) : list Page :=
  map (fun p => if existsb (Nat.eqb (page_id p)) ids
                then closed_page p else p) ps.

(** The browser accepts every call made from now on. *)
Definition accepts_all (w : World) : Prop :=
  forall e, ~ In (Some e) (faults w).

(** The calls a method made: what it appended to the trace. *)
Definition calls_of (w w' : World) (cs : list Call) : Prop :=
  trace w' = (trace w ++ cs)%list.


(** No task is cancelled: whatever the outside raises from now on is an
    instance of [Exception]. *)
Definition no_cancellation (w : World) : Prop :=
  forall e, In (Some e) (faults w) -> is_Exception e = true.

(** What a method raises that is not an [Exception] was raised by the
    outside, at one of its calls; and a method answers no call for the
    outside. *)
Definition passes_signals {A : Type} (m : M A) : Prop :=
  forall w,
    incl (faults (fst (m w))) (faults w)
    /\ forall e, snd (m w) = Raise e -> is_Exception e = false ->
                 In (Some e) (faults w).

End Manager.

(** * Properties *)

(** ** Conversion of integers to floats *)

Section IntToFloat.
Import PyFloat.
Local Open Scope Z_scope.

Lemma digits2_pos_size (p : positive) : digits2_pos p = Pos.size p.
Proof. induction p; simpl; congruence. Qed.

Lemma digits_lower (p : positive) : 2 ^ (Zpos (digits2_pos p) - 1) <= Zpos p.
Proof.
  rewrite digits2_pos_size.
  pose proof (Pos.size_le p) as H.
  assert (H2 : 2 ^ Zpos (Pos.size p) <= 2 * Zpos p).
  { change (2 * Zpos p) with (Zpos p~0). rewrite <- Pos2Z.inj_pow. exact H. }
  replace (Zpos (Pos.size p)) with (Z.succ (Zpos (Pos.size p) - 1)) in H2 by lia.
  rewrite Z.pow_succ_r in H2 by lia. lia.
Qed.

Lemma iter_pos_nat {A : Type} (f : A -> A) (p : positive) (x : A) :
  iter_pos f p x = Nat.iter (Pos.to_nat p) f x.
Proof.
  revert x; induction p as [p IH|p IH|]; intros x; cbn [iter_pos].
  - rewrite !IH, Pos2Nat.inj_xI.
    replace (S (2 * Pos.to_nat p))%nat
      with (Pos.to_nat p + S (Pos.to_nat p))%nat by lia.
    rewrite Nat.iter_add, Nat.iter_succ_r. reflexivity.
  - rewrite !IH, Pos2Nat.inj_xO.
    replace (2 * Pos.to_nat p)%nat
      with (Pos.to_nat p + Pos.to_nat p)%nat by lia.
    rewrite Nat.iter_add. reflexivity.
  - reflexivity.
Qed.

Lemma shr_1_m (mrs : shr_record) :
  0 <= shr_m mrs -> shr_m (shr_1 mrs) = Z.div2 (shr_m mrs).
Proof.
  destruct mrs as [m r s]; simpl.
  destruct m as [|[p|p|]|p]; simpl; try reflexivity; lia.
Qed.

Lemma shr_iter_m (k : nat) (mrs : shr_record) :
  0 <= shr_m mrs -> shr_m (Nat.iter k shr_1 mrs) = shr_m mrs / 2 ^ Z.of_nat k.
Proof.
  intros Hm. induction k as [|k IH].
  - simpl. now rewrite Z.div_1_r.
  - rewrite Nat2Z.inj_succ, Z.pow_succ_r by lia.
    simpl Nat.iter. rewrite shr_1_m.
    + rewrite IH, Z.div2_div, Z.div_div by lia. f_equal; lia.
    + rewrite IH. apply Z.div_pos; lia.
Qed.

Lemma shr_record_of_loc_m (m : Z) (l : location) :
  shr_m (shr_record_of_loc m l) = m.
Proof. destruct l as [|[]]; reflexivity. Qed.

(** Shifting a positive mantissa down to the format's precision leaves it
    positive. *)
Lemma shr_fexp_pos (m e : Z) (l : location) :
  0 < m -> emin prec emax <= e ->
  0 < shr_m (fst (shr_fexp prec emax m e l))
  /\ e <= snd (shr_fexp prec emax m e l).
Proof.
  intros Hm He. unfold shr_fexp, shr.
  destruct m as [|p|p]; try lia. cbn [Zdigits2].
  pose proof (digits_lower p) as Hd.
  destruct (fexp prec emax (Zpos (digits2_pos p) + e) - e) as [|n|n] eqn:En;
    cbn [fst snd].
  - rewrite shr_record_of_loc_m. lia.
  - rewrite iter_pos_nat, shr_iter_m, shr_record_of_loc_m
      by (rewrite shr_record_of_loc_m; lia).
    rewrite positive_nat_Z. split; [|lia].
    apply Z.div_str_pos. split; [apply Z.pow_pos_nonneg; lia|].
    eapply Z.le_trans; [|exact Hd].
    apply Z.pow_le_mono_r; [lia|].
    unfold fexp, emin, prec, emax in *. lia.
  - rewrite shr_record_of_loc_m. lia.
Qed.

Lemma round_nearest_even_pos (m : Z) (l : location) :
  0 < m -> 0 < round_nearest_even m l.
Proof.
  intros Hm. unfold round_nearest_even. destruct l as [|[]]; try lia.
  destruct (Z.even m); lia.
Qed.

Lemma binary_round_aux_sign (sx : bool) (m e : Z) (l : location) :
  0 < m -> emin prec emax <= e ->
  (exists m' e', binary_round_aux prec emax sx m e l = S754_finite sx m' e')
  \/ binary_round_aux prec emax sx m e l = S754_infinity sx.
Proof.
  intros Hm He. unfold binary_round_aux.
  destruct (shr_fexp_pos m e l Hm He) as [H1 H1e].
  destruct (shr_fexp prec emax m e l) as [mrs' e1]. cbn [fst snd] in *.
  pose proof (round_nearest_even_pos (shr_m mrs') (loc_of_shr_record mrs') H1)
    as H2.
  destruct (shr_fexp_pos _ e1 loc_Exact H2 ltac:(lia)) as [H3 _].
  destruct (shr_fexp prec emax _ e1 loc_Exact) as [mrs'' e2].
  cbn [fst snd] in *.
  destruct (shr_m mrs'') as [|q|q]; try lia.
  destruct (e2 <=? emax - prec); eauto.
Qed.

(** Rounding a nonzero integer gives a nonzero float of the same sign, or
    overflows to the infinity of that sign. *)
Lemma binary_round_sign (sx : bool) (p : positive) :
  (exists m' e', binary_round prec emax sx p 0 = S754_finite sx m' e')
  \/ binary_round prec emax sx p 0 = S754_infinity sx.
Proof.
  unfold binary_round.
  destruct (shl_align p 0 _) as [mz ez] eqn:E.
  apply binary_round_aux_sign; [lia|].
  unfold shl_align in E.
  destruct (fexp prec emax (Zpos (digits2_pos p) + 0) - 0) eqn:E2;
    inversion E; subst; unfold fexp, emin, prec, emax in *; lia.
Qed.

(** [float(z) < 0] exactly when [z < 0], whenever [float(z)] exists. *)
Lemma of_int_negative (z : Z) (f : float) :
  of_int z = Ok f -> (ltb f zero = true <-> z < 0).
Proof.
  unfold of_int, binary_normalize. destruct z as [|p|p].
  - intros [= <-]. cbn. split; [discriminate|lia].
  - destruct (binary_round_sign false p) as [(m' & e' & ->)| ->].
    + intros [= <-]. cbn. split; [discriminate|lia].
    + discriminate.
  - destruct (binary_round_sign true p) as [(m' & e' & ->)| ->].
    + intros [= <-]. cbn. split; [reflexivity|lia].
    + discriminate.
Qed.

(** The exponent that [shr_fexp] leaves is at least the one the format
    gives to a number of that many digits. *)
Lemma shr_fexp_exponent (m e : Z) (l : location) :
  fexp prec emax (Zdigits2 m + e) <= snd (shr_fexp prec emax m e l).
Proof.
  unfold shr_fexp, shr.
  destruct (fexp prec emax (Zdigits2 m + e) - e) as [|n|n] eqn:En;
    cbn [snd]; lia.
Qed.

Lemma binary_round_aux_large (sx : bool) (m e : Z) (l : location) :
  0 < m -> emin prec emax <= e ->
  emax - prec < fexp prec emax (Zdigits2 m + e) ->
  binary_round_aux prec emax sx m e l = S754_infinity sx.
Proof.
  intros Hm He Hbig. unfold binary_round_aux.
  destruct (shr_fexp_pos m e l Hm He) as [H1 H1e].
  pose proof (shr_fexp_exponent m e l) as H1x.
  destruct (shr_fexp prec emax m e l) as [mrs1 e1]. cbn [fst snd] in *.
  pose proof (round_nearest_even_pos (shr_m mrs1) (loc_of_shr_record mrs1) H1)
    as H2.
  destruct (shr_fexp_pos _ e1 loc_Exact H2 ltac:(lia)) as [H3 H3e].
  destruct (shr_fexp prec emax _ e1 loc_Exact) as [mrs2 e2].
  cbn [fst snd] in *.
  destruct (shr_m mrs2) as [|q|q]; try lia.
  destruct (Z.leb_spec e2 (emax - prec)); [lia|reflexivity].
Qed.

Lemma digits_large (p : positive) :
  2 ^ 1024 <= Zpos p -> 1025 <= Zpos (digits2_pos p).
Proof.
  intros H. rewrite digits2_pos_size.
  pose proof (Pos.size_gt p) as Hs.
  assert (Hlt : 2 ^ 1024 < 2 ^ Zpos (Pos.size p)).
  { eapply Z.le_lt_trans; [exact H|].
    rewrite <- Pos2Z.inj_pow. exact Hs. }
  apply Z.pow_lt_mono_r_iff in Hlt; lia.
Qed.

(** An integer of magnitude [2 ^ 1024] or more rounds to infinity. *)
Lemma binary_round_large (sx : bool) (p : positive) :
  2 ^ 1024 <= Zpos p ->
  binary_round prec emax sx p 0 = S754_infinity sx.
Proof.
  intros Hp. pose proof (digits_large p Hp) as Hd.
  unfold binary_round, shl_align.
  destruct (fexp prec emax (Zpos (digits2_pos p) + 0) - 0) as [|n|n] eqn:E.
  - apply binary_round_aux_large; [lia|unfold emin, prec, emax; lia|].
    cbn [Zdigits2]. unfold fexp, emin, prec, emax in *. lia.
  - apply binary_round_aux_large; [lia|unfold emin, prec, emax; lia|].
    cbn [Zdigits2]. unfold fexp, emin, prec, emax in *. lia.
  - unfold fexp, emin, prec, emax in E. lia.
Qed.

(** [float(z)] raises OverflowError for every [z] of magnitude [2 ** 1024]
    or more. *)
Lemma of_int_large (z : Z) :
  2 ^ 1024 <= Z.abs z ->
  of_int z = Raise (Exn OverflowError "int too large to convert to float").
Proof.
  intros Hz. unfold of_int, binary_normalize. destruct z as [|p|p].
  - exfalso. change (Z.abs 0) with 0 in Hz.
    assert (0 < 2 ^ 1024) by (apply Z.pow_pos_nonneg; lia). lia.
  - rewrite (binary_round_large false p Hz). reflexivity.
  - rewrite (binary_round_large true p Hz). reflexivity.
Qed.

(** The one exception [float(z)] raises. *)
Lemma of_int_raises (z : Z) (e : exn) :
  of_int z = Raise e ->
  e = Exn OverflowError "int too large to convert to float".
Proof.
  unfold of_int.
  destruct (binary_normalize prec emax z 0 false); congruence.
Qed.

Lemma leb_zero_not_negative (f : float) :
  leb zero f = true -> ltb f zero = false.
Proof. destruct f as [s|s| |s m e]; try destruct s; cbn; congruence. Qed.

End IntToFloat.

(** ** pause_flow *)

Section PauseFlowProperties.
Import PyFloat PauseFlow.

Variable float_repr : float -> string.

(** Negativity of the argument and of its float value agree. *)
Lemma negative_iff_ltb (d : Duration) (seconds : float) :
  to_float d = Ok seconds -> (negative d <-> ltb seconds zero = true).
Proof.
  destruct d as [z|f]; cbn [to_float negative].
  - intros H. symmetry. now apply of_int_negative.
  - intros [= ->]. reflexivity.
Qed.

Lemma nonnegative_not_negative (d : Duration) :
  nonnegative d -> ~ negative d.
Proof.
  destruct d as [z|f]; cbn [nonnegative negative].
  - lia.
  - intros H. rewrite (leb_zero_not_negative f H). discriminate.
Qed.

(** A nonnegative duration that converts: one sleep, then the message. *)
Lemma pause_flow_completes (duration : Duration) (seconds : float) :
  to_float duration = Ok seconds ->
  nonnegative duration ->
  pause_flow float_repr duration =
    ([Sleep seconds],
     Ok (if eqb seconds one
         then "Paused for " ++ float_repr seconds ++ " second."
         else "Paused for " ++ float_repr seconds ++ " seconds.")).
Proof.
  intros Hf Hn.
  assert (Hlt : ltb seconds zero = false).
  { destruct (ltb seconds zero) eqn:E; [|reflexivity].
    exfalso. apply (nonnegative_not_negative duration Hn).
    now apply (negative_iff_ltb duration seconds Hf). }
  unfold pause_flow, pause_flow_with, pause_flow_try.
  rewrite Hf, Hlt. reflexivity.
Qed.

(** C7, as amended: for every nonnegative int or float duration that
    [float()] converts, [pause_flow] sleeps once for [seconds = float(duration)]
    and returns "Paused for {seconds} seconds.", with the singular "second."
    exactly when [seconds == 1]. *)
Theorem pause_flow_reports_completion (duration : Duration) (seconds : float) :
  to_float duration = Ok seconds ->
  nonnegative duration ->
  pause_flow float_repr duration =
    ([Sleep seconds],
     Ok (if eqb seconds one
         then "Paused for " ++ float_repr seconds ++ " second."
         else "Paused for " ++ float_repr seconds ++ " seconds.")).
Proof. exact (pause_flow_completes duration seconds). Qed.

(** C9, as amended: for every negative int or float duration that [float()]
    converts, [pause_flow] raises ValueError("Duration cannot be negative.")
    without sleeping; for a duration that [float()] converts, [pause_flow]
    raises if and only if the duration is negative; an [Exception] raised by
    the sleep itself comes out as a ValueError, while a cancellation of the
    sleep leaves [pause_flow] as the CancelledError it is.  A duration that
    [float()] refuses raises ValueError("Error while pausing: int too large
    to convert to float") without sleeping, and every int of magnitude
    [2 ** 1024] or more, whatever its sign, is refused. *)
Theorem pause_flow_rejects_negative (duration : Duration) :
  (forall seconds : float,
      to_float duration = Ok seconds ->
      (negative duration ->
       pause_flow float_repr duration =
         ([], Raise (Exn ValueError "Duration cannot be negative.")))
      /\ ((exists tr e, pause_flow float_repr duration = (tr, Raise e))
          <-> negative duration)
      /\ (~ negative duration ->
          (forall e, is_Exception e = true ->
             exists msg,
               pause_flow_with float_repr (Some e) duration =
                 ([Sleep seconds], Raise (Exn ValueError msg)))
          /\ pause_flow_with float_repr (Some Cancelled) duration =
               ([Sleep seconds], Raise Cancelled)))
  /\ (forall e : exn,
         to_float duration = Raise e ->
         pause_flow float_repr duration =
           ([], Raise (Exn ValueError
                           "Error while pausing: int too large to convert to float")))
  /\ (forall z : Z,
         duration = DInt z ->
         (2 ^ 1024 <= Z.abs z)%Z ->
         to_float duration =
           Raise (Exn OverflowError "int too large to convert to float")).
Proof.
  split; [|split].
  - intros seconds Hf.
    pose proof (negative_iff_ltb duration seconds Hf) as Hiff.
    unfold pause_flow, pause_flow_with, pause_flow_try. rewrite Hf.
    destruct (ltb seconds zero) eqn:E.
    + assert (Hneg : negative duration) by now apply Hiff.
      split; [reflexivity|]. split.
      * split; [intros _; exact Hneg|]. intros _. cbn. eauto.
      * intros Hn. contradiction.
    + assert (Hnn : ~ negative duration).
      { intros H. apply Hiff in H. discriminate. }
      split; [intros H; contradiction|]. split.
      * split; [|intros H; contradiction].
        intros (tr & e & H). discriminate.
      * intros _. split; [|reflexivity].
        intros e He. rewrite He. unfold pause_flow_except.
        destruct (is_ValueError e); [destruct (contains _ _)|]; eauto.
  - intros e Hf.
    assert (He : e = Exn OverflowError "int too large to convert to float").
    { destruct duration as [z|f]; cbn [to_float] in Hf.
      - exact (of_int_raises z e Hf).
      - discriminate. }
    subst e.
    unfold pause_flow, pause_flow_with, pause_flow_try. rewrite Hf.
    reflexivity.
  - intros z -> Hz. cbn [to_float]. exact (of_int_large z Hz).
Qed.

End PauseFlowProperties.

(** [pause_flow(1)] *)
Lemma pause_flow_reports_completion_witness :
  PauseFlow.pause_flow PyFloat.repr_whole (PauseFlow.DInt 1) =
    ([PauseFlow.Sleep PyFloat.one], Ok "Paused for 1.0 second.").
Proof.
  apply (pause_flow_reports_completion PyFloat.repr_whole (PauseFlow.DInt 1)
           PyFloat.one).
  - reflexivity.
  - cbn. discriminate.
Defined.

(** [pause_flow(10 ** 400)]: the conversion overflows and the generic
    handler wraps the error. *)
Lemma pause_flow_huge_int (float_repr : PyFloat.float -> string) :
  PauseFlow.pause_flow float_repr (PauseFlow.DInt (10 ^ 400)) =
    ([], Raise (Exn ValueError
                    "Error while pausing: int too large to convert to float")).
Proof. vm_compute. reflexivity. Qed.

(** C7 as stated fails: a nonnegative int for which no message is returned. *)
Lemma pause_flow_nonnegative_int_without_message :
  ~ (forall (float_repr : PyFloat.float -> string)
            (duration : PauseFlow.Duration),
        PauseFlow.nonnegative duration ->
        exists tr message,
          PauseFlow.pause_flow float_repr duration = (tr, Ok message)).
Proof.
  intros H.
  destruct (H PyFloat.repr_whole (PauseFlow.DInt (10 ^ 400)))
    as (tr & message & E).
  - unfold PauseFlow.nonnegative. apply Z.pow_nonneg. lia.
  - rewrite pause_flow_huge_int in E. discriminate.
Qed.

(** [pause_flow(-2)] and [pause_flow(2 ** 1024)] *)
Lemma pause_flow_rejects_negative_witness :
  PauseFlow.pause_flow PyFloat.repr_whole (PauseFlow.DInt (-2)) =
    ([], Raise (Exn ValueError "Duration cannot be negative."))
  /\ PauseFlow.pause_flow PyFloat.repr_whole (PauseFlow.DInt (2 ^ 1024)) =
       ([], Raise (Exn ValueError
                       "Error while pausing: int too large to convert to float")).
Proof.
  split.
  - refine (proj1 (proj1 (pause_flow_rejects_negative PyFloat.repr_whole
                            (PauseFlow.DInt (-2)))
                     (S754_finite true 4503599627370496 (-51)) _) _).
    + reflexivity.
    + cbn. reflexivity.
  - destruct (pause_flow_rejects_negative PyFloat.repr_whole
                (PauseFlow.DInt (2 ^ 1024))) as (_ & Hrefused & Hlarge).
    eapply Hrefused. eapply Hlarge; [reflexivity|].
    vm_compute. discriminate.
Defined.

(** [pause_flow(-(10 ** 400))]: negative, and yet the message is not the
    one for negative durations. *)
Lemma pause_flow_huge_negative_int (float_repr : PyFloat.float -> string) :
  PauseFlow.pause_flow float_repr (PauseFlow.DInt (- (10 ^ 400))) =
    ([], Raise (Exn ValueError
                    "Error while pausing: int too large to convert to float")).
Proof. vm_compute. reflexivity. Qed.

(** C9 as stated fails: a negative int that is not answered with
    "Duration cannot be negative.". *)
Lemma pause_flow_negative_int_other_message :
  ~ (forall (float_repr : PyFloat.float -> string)
            (duration : PauseFlow.Duration),
        PauseFlow.negative duration ->
        PauseFlow.pause_flow float_repr duration =
          ([], Raise (Exn ValueError "Duration cannot be negative."))).
Proof.
  intros H.
  specialize (H PyFloat.repr_whole (PauseFlow.DInt (- (10 ^ 400)))).
  rewrite pause_flow_huge_negative_int in H.
  assert (Hneg : PauseFlow.negative (PauseFlow.DInt (- (10 ^ 400)))).
  { unfold PauseFlow.negative. apply Z.opp_neg_pos.
    apply Z.pow_pos_nonneg; lia. }
  specialize (H Hneg). discriminate.
Qed.

(** ** The manager *)

Section ManagerProperties.
Import Manager.

(** A browser type other than "chromium" is turned away before any call. *)
Lemma create_browser_context_rejects
        (w : World) (self : Instance) (bt : string) :
  _instance w = Some self ->
  browser_type self = Some bt ->
  bt <> "chromium" ->
  create_browser_context w =
    (w, Raise (Exn ValueError ("Unsupported browser type: " ++ bt))).
Proof.
  intros Hi Hb Hne.
  unfold create_browser_context, bind, gets, self_attr.
  rewrite Hi, Hb.
  destruct (String.eqb bt "chromium") eqn:E.
  - apply String.eqb_eq in E. contradiction.
  - reflexivity.
Qed.

(** C8: for every browser_type other than "chromium", create_browser_context
    raises ValueError("Unsupported browser type: ...") and leaves the world as
    it was: no launch is attempted and no browser context is created. *)
Theorem create_browser_context_unsupported
        (w : World) (self : Instance) (bt : string) :
  _instance w = Some self ->
  browser_type self = Some bt ->
  bt <> "chromium" ->
  create_browser_context w =
    (w, Raise (Exn ValueError ("Unsupported browser type: " ++ bt))).
Proof. exact (create_browser_context_rejects w self bt). Qed.

(** A message that contains the recognised text of a browser error is not
    the empty message of a cancellation. *)
Lemma contains_Exception (needle : string) (e : exn) :
  contains needle (exn_msg e) = true ->
  needle <> "" ->
  is_Exception e = true.
Proof.
  destruct e as [cls msg|]; [reflexivity|].
  destruct needle; [congruence|]. cbn. discriminate.
Qed.

(** One launch that raises [e]: the call is recorded, the fault is used up,
    and nothing else changes. *)
Lemma launch_raises (w : World) (self : Instance) (pw : Playwright)
      (h : bool) (e : exn) (rest : list (option exn)) (dir : Path) :
  _instance w = Some self ->
  isheadless self = Some h ->
  _playwright w = Some pw ->
  faults w = Some e :: rest ->
  launch_persistent_context dir w =
    (set_faults rest (log (LaunchPersistentContext dir h) w), Raise e).
Proof.
  intros Hi Hh Hp Hf.
  unfold launch_persistent_context, bind, gets, self_attr, await.
  rewrite Hp, Hi, Hh. cbn [faults log]. rewrite Hf. reflexivity.
Qed.

(** One launch that succeeds. *)
Lemma launch_succeeds (w : World) (self : Instance) (pw : Playwright)
      (h : bool) (dir : Path) :
  _instance w = Some self ->
  isheadless self = Some h ->
  _playwright w = Some pw ->
  hd None (faults w) = None ->
  launch_persistent_context dir w =
    (let w1 := set_faults (tl (faults w))
                          (log (LaunchPersistentContext dir h) w) in
     set_browser_context (Some (launched w dir h))
                         (set_next_id (S (S (next_id w))) w1),
     Ok tt).
Proof.
  intros Hi Hh Hp Hf.
  unfold launch_persistent_context, bind, gets, self_attr, await.
  rewrite Hp, Hi, Hh. cbn [faults log].
  destruct (faults w) as [|[e|] rest] eqn:E; cbn in Hf; try discriminate;
    cbn; unfold set_faults, set_browser_context, set_next_id, log, launched;
    cbn; rewrite ?E; reflexivity.
Qed.

(** C3: with browser_type "chromium", when the first
    launch_persistent_context call raises [e]:
    - if str(e) contains "Target page, context or browser has been closed",
      a temporary directory is created and the launch is made once more with
      it in place of the configured directory; that second launch decides
      the outcome, and no third launch follows;
    - otherwise, if str(e) contains the text of a missing 'chrome'
      distribution, ValueError("Chrome is not installed ...") is raised after
      the single launch;
    - otherwise [e] itself propagates after the single launch. *)
Theorem create_browser_context_retry
        (w : World) (self : Instance) (pw : Playwright) (h : bool)
        (e : exn) (rest : list (option exn)) :
  _instance w = Some self ->
  browser_type self = Some "chromium" ->
  isheadless self = Some h ->
  _playwright w = Some pw ->
  faults w = Some e :: rest ->
  let first := LaunchPersistentContext (configured_dir w) h in
  let tmp := TempDir (next_id w) in
  let w1 := set_faults rest (log first w) in
  let w2 := log (Mkdtemp (next_id w)) (set_next_id (S (next_id w)) w1) in
  let second := LaunchPersistentContext tmp h in
  (contains target_closed (exn_msg e) = true ->
   match rest with
   | Some e2 :: rest2 =>
       create_browser_context w =
         (set_faults rest2 (log second w2), Raise e2)
   | _ =>
       create_browser_context w =
         (set_browser_context (Some (launched w2 tmp h))
            (set_next_id (S (S (next_id w2)))
               (set_faults (tl rest) (log second w2))),
          Ok tt)
   end)
  /\ (contains target_closed (exn_msg e) = false ->
      contains chrome_not_found (exn_msg e) = true ->
      create_browser_context w =
        (w1, Raise (Exn ValueError chrome_not_installed)))
  /\ (contains target_closed (exn_msg e) = false ->
      contains chrome_not_found (exn_msg e) = false ->
      create_browser_context w = (w1, Raise e)).
Proof.
  intros Hi Hb Hh Hp Hf first tmp w1 w2 second.
  assert (Hstart :
    create_browser_context w =
      match launch_persistent_context (configured_dir w) w with
      | (w', Ok a) => (w', Ok a)
      | (w', Raise e0) =>
          if is_Exception e0
          then (if contains target_closed (exn_msg e0)
                then new_user_dir <- mkdtemp ;;
                     launch_persistent_context new_user_dir
                else if contains chrome_not_found (exn_msg e0)
                     then raise (Exn ValueError chrome_not_installed)
                     else raise e0) w'
          else (w', Raise e0)
      end).
  { unfold create_browser_context, bind at 1 2, gets, self_attr.
    rewrite Hi, Hb. reflexivity. }
  rewrite Hstart, (launch_raises w self pw h e rest _ Hi Hh Hp Hf).
  fold first. fold w1.
  split; [|split].
  - intros Ht. rewrite (contains_Exception _ e Ht ltac:(discriminate)), Ht.
    assert (Hmk : (new_user_dir <- mkdtemp ;;
                   launch_persistent_context new_user_dir) w1
                  = launch_persistent_context tmp w2).
    { reflexivity. }
    rewrite Hmk.
    destruct rest as [|[e2|] rest2].
    + rewrite (launch_succeeds w2 self pw h tmp); try assumption; reflexivity.
    + rewrite (launch_raises w2 self pw h e2 rest2 tmp);
        try assumption; reflexivity.
    + rewrite (launch_succeeds w2 self pw h tmp); try assumption; reflexivity.
  - intros Ht Hc. rewrite (contains_Exception _ e Hc ltac:(discriminate)), Ht, Hc.
    reflexivity.
  - intros Ht Hc. destruct e as [cls msg|]; [|reflexivity].
    cbn [is_Exception]. rewrite Ht, Hc. reflexivity.
Qed.

(** *** The singleton *)

(** Once an initialized instance exists, calling the class returns it and
    touches nothing. *)
Lemma PlaywrightManager_again (w : World) (self : Instance)
      (bt : string) (h g : bool) :
  _instance w = Some self ->
  __initialized self = true ->
  PlaywrightManager bt h g w = (w, Ok (obj_id self)).
Proof.
  intros Hi Hinit.
  unfold PlaywrightManager, __new__, __init__, bind, self_get.
  rewrite Hi. cbn. rewrite Hi, Hinit. reflexivity.
Qed.

(** Calling the class always returns an initialized instance. *)
Lemma PlaywrightManager_returns (w : World) (bt : string) (h g : bool) :
  exists (w1 : World) (n : nat) (self : Instance),
    PlaywrightManager bt h g w = (w1, Ok n)
    /\ _instance w1 = Some self
    /\ obj_id self = n
    /\ __initialized self = true.
Proof.
  destruct w as [[[oid [|] adone b hd ev ur ui]|] pw ctx n dir fs tr land];
    [|destruct g|destruct g];
    eexists; eexists; eexists;
    (split; [lazy; reflexivity|repeat split]).
Qed.

Lemma construct_all_again (later : list (string * bool * bool))
      (w : World) (self : Instance) :
  _instance w = Some self ->
  __initialized self = true ->
  construct_all later w = (w, repeat (Ok (obj_id self)) (length later)).
Proof.
  intros Hi Hinit. induction later as [|[[bt h] g] rest IH].
  - reflexivity.
  - cbn [construct_all length repeat].
    rewrite (PlaywrightManager_again w self bt h g Hi Hinit), IH.
    reflexivity.
Qed.

(** C1: PlaywrightManager is a singleton.  Whatever the world, a
    construction returns an instance, and every later construction, with any
    arguments, returns that same instance and leaves the world as it is; when
    the construction is the first one, the instance carries the browser_type
    and isheadless it was given and a fresh, cleared user_response_event, and
    the initializer's allocations appear once in the trace. *)
Theorem PlaywrightManager_singleton
        (w : World) (bt : string) (h g : bool)
        (later : list (string * bool * bool)) :
  exists (self : Instance) (w1 : World),
    PlaywrightManager bt h g w = (w1, Ok (obj_id self))
    /\ _instance w1 = Some self
    /\ construct_all later w1 =
         (w1, repeat (Ok (obj_id self)) (length later))
    /\ (_instance w = None ->
        obj_id self = next_id w
        /\ browser_type self = Some bt
        /\ isheadless self = Some h
        /\ user_response_event self = Some (mkEvent (S (next_id w)) false)
        /\ trace w1 =
             (trace w ++ NewEvent (S (next_id w))
                      :: (if g then [NewUIManager (S (S (next_id w)))]
                          else []))%list).
Proof.
  destruct (PlaywrightManager_returns w bt h g)
    as (w1 & n & self & E & Hi & <- & Hinit).
  exists self, w1. split; [exact E|]. split; [exact Hi|].
  split; [now apply construct_all_again|].
  intros Hnone.
  destruct w as [inst pw ctx n0 dir fs tr land]. cbn in Hnone. subst inst.
  destruct g; lazy -[app] in E; inversion E; subst w1;
    lazy -[app] in Hi; inversion Hi; subst self; lazy -[app]; repeat split;
    rewrite <- app_assoc; reflexivity.
Qed.

(** *** Create once, reuse *)

Lemma start_playwright_started (w : World) (pw : Playwright) :
  _playwright w = Some pw -> start_playwright w = (w, Ok tt).
Proof.
  intros H. unfold start_playwright, bind, gets. rewrite H. reflexivity.
Qed.

Lemma ensure_browser_context_present (w : World) (c : BrowserContext) :
  _browser_context w = Some c -> ensure_browser_context w = (w, Ok tt).
Proof.
  intros H. unfold ensure_browser_context, bind, gets. rewrite H.
  reflexivity.
Qed.

Lemma async_initialize_done (w : World) (self : Instance) :
  _instance w = Some self ->
  __async_initialize_done self = true ->
  async_initialize w = (w, Ok tt).
Proof.
  intros Hi Hd. unfold async_initialize, bind, self_get.
  rewrite Hi, Hd. reflexivity.
Qed.

(** A start that returns has stored the Playwright object. *)
Lemma start_playwright_stores (w w' : World) :
  start_playwright w = (w', Ok tt) -> exists pw, _playwright w' = Some pw.
Proof.
  unfold start_playwright, bind, gets, await, fresh, modify.
  destruct (_playwright w) as [pw|] eqn:Hp.
  - intros [= <-]. eauto.
  - cbn [faults log]. destruct (faults w) as [|[e|] rest];
      intros [= <-]; cbn; eauto.
Qed.

(** A launch that returns has stored the context. *)
Lemma launch_persistent_context_stores (dir : Path) (w w' : World) :
  launch_persistent_context dir w = (w', Ok tt) ->
  exists c, _browser_context w' = Some c.
Proof.
  unfold launch_persistent_context, bind, gets, self_attr, await, fresh,
    modify, raise.
  destruct (_playwright w); [|discriminate].
  destruct (_instance w) as [i|]; [|discriminate].
  destruct (isheadless i); [|discriminate].
  cbn [faults log]. destruct (faults w) as [|[e|] rest];
    intros [= <-]; cbn; eauto.
Qed.

Lemma create_browser_context_stores (w w' : World) :
  create_browser_context w = (w', Ok tt) ->
  exists c, _browser_context w' = Some c.
Proof.
  unfold create_browser_context, bind at 1 2, gets, self_attr.
  destruct (_instance w) as [i|]; [|discriminate].
  destruct (browser_type i) as [bt|]; [|discriminate].
  destruct (String.eqb bt "chromium"); [|discriminate].
  unfold try_except. fold (configured_dir w).
  destruct (launch_persistent_context (configured_dir w) w)
    as [w1 [[]|e]] eqn:E1.
  - intros H. inversion H; subst w'.
    eapply launch_persistent_context_stores; eauto.
  - destruct (is_Exception e); [|discriminate].
    destruct (contains target_closed (exn_msg e)).
    + unfold bind, mkdtemp, fresh, call, ret. cbn.
      intros H. eapply launch_persistent_context_stores. exact H.
    + destruct (contains chrome_not_found (exn_msg e)); discriminate.
Qed.

Lemma ensure_browser_context_stores (w w' : World) :
  ensure_browser_context w = (w', Ok tt) ->
  exists c, _browser_context w' = Some c.
Proof.
  unfold ensure_browser_context, bind, gets.
  destruct (_browser_context w) as [c|] eqn:Hc.
  - intros [= <-]. eauto.
  - apply create_browser_context_stores.
Qed.

(** An initialization that returns has raised its flag. *)
Lemma async_initialize_flags (w w' : World) :
  async_initialize w = (w', Ok tt) ->
  exists self, _instance w' = Some self
               /\ __async_initialize_done self = true.
Proof.
  unfold async_initialize, bind, self_get.
  destruct (_instance w) as [i|] eqn:Hi; [|discriminate].
  destruct (__async_initialize_done i) eqn:Hd.
  - intros [= <-]. eauto.
  - destruct (start_playwright w) as [w1 [[]|e1]]; [|discriminate].
    destruct (ensure_browser_context w1) as [w2 [[]|e2]]; [|discriminate].
    destruct (setup_handlers w2) as [w3 [[]|e3]]; [|discriminate].
    destruct (go_to_homepage w3) as [w4 [[]|e4]]; [|discriminate].
    unfold self_set. destruct (_instance w4) as [i4|]; [|discriminate].
    intros [= <-]. cbn. eauto.
Qed.

(** C4: start_playwright, ensure_browser_context and async_initialize are
    idempotent.  When the Playwright instance, the browser context or the
    finished initialization is already there, the call returns at once and
    the world, trace of outside calls included, is what it was; and calling
    any of the three twice in a row is the same as calling it once. *)
Theorem lifecycle_idempotent (w : World) :
  (forall pw, _playwright w = Some pw -> start_playwright w = (w, Ok tt))
  /\ (forall c, _browser_context w = Some c ->
       ensure_browser_context w = (w, Ok tt))
  /\ (forall self, _instance w = Some self ->
       __async_initialize_done self = true ->
       async_initialize w = (w, Ok tt))
  /\ twice start_playwright w = start_playwright w
  /\ twice ensure_browser_context w = ensure_browser_context w
  /\ twice async_initialize w = async_initialize w.
Proof.
  split; [exact (start_playwright_started w)|].
  split; [exact (ensure_browser_context_present w)|].
  split; [exact (async_initialize_done w)|].
  unfold twice, bind. repeat split.
  - destruct (start_playwright w) as [w1 [[]|e]] eqn:E; [|reflexivity].
    destruct (start_playwright_stores w w1 E) as [pw Hpw].
    now apply start_playwright_started with pw.
  - destruct (ensure_browser_context w) as [w1 [[]|e]] eqn:E; [|reflexivity].
    destruct (ensure_browser_context_stores w w1 E) as [c Hc].
    now apply ensure_browser_context_present with c.
  - destruct (async_initialize w) as [w1 [[]|e]] eqn:E; [|reflexivity].
    destruct (async_initialize_flags w w1 E) as (self & Hi & Hd).
    now apply async_initialize_done with self.
Qed.

(** *** The current page *)

Lemma last_page_cons (p : Page) (ps : list Page) :
  ps <> [] -> last_page (p :: ps) = last_page ps.
Proof. destruct ps; [contradiction|reflexivity]. Qed.

Lemma last_page_none (ps : list Page) : last_page ps = None -> ps = [].
Proof.
  induction ps as [|p [|q ps] IH]; [reflexivity|discriminate|].
  intros H. exfalso. apply IH in H. discriminate.
Qed.

(** The last element of the filtered list is the last open page: every page
    after it is closed.  When the filtered list is empty, no page is open. *)
Lemma last_open_page (ps : list Page) :
  (last_page (filter is_open ps) = None
   /\ Forall (fun x => page_closed x = true) ps)
  \/ (exists before q after,
        ps = (before ++ q :: after)%list
        /\ page_closed q = false
        /\ Forall (fun x => page_closed x = true) after
        /\ last_page (filter is_open ps) = Some q).
Proof.
  induction ps as [|p ps IH].
  - left. split; [reflexivity|constructor].
  - cbn [filter].
    assert (Hopen : is_open p = negb (page_closed p)) by reflexivity.
    destruct IH as [[Hnone Hall]|(before & q & after & -> & Hq & Hafter & Hl)].
    + apply last_page_none in Hnone. rewrite Hnone.
      destruct (page_closed p) eqn:Hp; rewrite Hopen; cbn [negb].
      * left. split; [reflexivity|]. constructor; assumption.
      * right. exists [], p, ps. repeat split; assumption.
    + right. exists (p :: before), q, after.
      split; [reflexivity|]. split; [assumption|]. split; [assumption|].
      destruct (is_open p); [|exact Hl].
      rewrite last_page_cons; [exact Hl|].
      intros E. rewrite E in Hl. discriminate.
Qed.

Lemma get_browser_context_present (w : World) (c : BrowserContext) :
  _browser_context w = Some c -> get_browser_context w = (w, Ok (Some c)).
Proof.
  intros H. unfold get_browser_context, bind.
  rewrite (ensure_browser_context_present w c H).
  unfold gets. rewrite H. reflexivity.
Qed.

(** One level of [get_current_page] over an existing context. *)
Lemma get_current_page_at_present (depth : nat) (w : World)
      (c : BrowserContext) :
  _browser_context w = Some c ->
  get_current_page_at (S depth) w =
    match last_page (filter is_open (pages c)) with
    | Some page => (w, Ok page)
    | None =>
        match new_page c w with
        | (w', Ok page) => (w', Ok page)
        | (w', Raise e) =>
            if is_Exception e
            then (modify (set_browser_context None) ;;
                  _ <- get_browser_context ;;
                  get_current_page_at depth) w'
            else (w', Raise e)
        end
    end.
Proof.
  intros H. cbn [get_current_page_at]. unfold try_except, bind at 1.
  rewrite (get_browser_context_present w c H).
  destruct (last_page (filter is_open (pages c))); reflexivity.
Qed.

Lemma new_page_accepted (w : World) (c : BrowserContext) :
  _browser_context w = Some c ->
  hd None (faults w) = None ->
  new_page c w =
    (let page := mkPage (next_id w) "about:blank" false [] in
     mkWorld (_instance w) (_playwright w)
             (Some (mkContext (ctx_id c) (ctx_user_dir c) (ctx_headless c)
                              (pages c ++ [page]) (ctx_exposed c)))
             (S (next_id w)) (BROWSER_STORAGE_DIR w) (tl (faults w))
             (trace w ++ [NewPage (ctx_id c)]) (landing w),
     Ok (mkPage (next_id w) "about:blank" false [])).
Proof.
  intros Hc Hf.
  destruct w as [inst pw ctx n dir fs tr land]. cbn in Hc, Hf. subst ctx.
  unfold new_page, bind, await, fresh, modify, ret, map_context, add_page.
  destruct fs as [|[e|] rest]; try discriminate;
    lazy -[app Nat.eqb]; rewrite Nat.eqb_refl; reflexivity.
Qed.

(** C6: over a browser context with at least one page that is not closed,
    get_current_page returns the last such page, that is, the open page that
    only closed pages follow, and changes nothing; over a context with no
    open page, when the browser accepts new_page, it returns the page so
    created, which is now the last page of the context. *)
Theorem get_current_page_tracks_active_tab (w : World) (c : BrowserContext) :
  _browser_context w = Some c ->
  ((exists p, In p (pages c) /\ page_closed p = false) ->
   exists before q after,
     pages c = (before ++ q :: after)%list
     /\ page_closed q = false
     /\ Forall (fun x => page_closed x = true) after
     /\ get_current_page w = (w, Ok q))
  /\ (Forall (fun x => page_closed x = true) (pages c) ->
      hd None (faults w) = None ->
      let page := mkPage (next_id w) "about:blank" false [] in
      exists w',
        get_current_page w = (w', Ok page)
        /\ _browser_context w' =
             Some (mkContext (ctx_id c) (ctx_user_dir c) (ctx_headless c)
                             (pages c ++ [page]) (ctx_exposed c))
        /\ trace w' = (trace w ++ [NewPage (ctx_id c)])%list).
Proof.
  intros Hc.
  assert (Hstep : get_current_page w =
                  get_current_page_at (S (Nat.pred recursion_limit)) w)
    by reflexivity.
  rewrite Hstep, (get_current_page_at_present _ w c Hc).
  destruct (last_open_page (pages c))
    as [[Hnone Hall]|(before & q & after & Hps & Hq & Hafter & Hl)].
  - split.
    + intros (p & Hin & Hp). exfalso.
      rewrite Forall_forall in Hall. specialize (Hall p Hin). congruence.
    + intros _ Hf page. rewrite Hnone, (new_page_accepted w c Hc Hf).
      eexists. split; [reflexivity|]. split; reflexivity.
  - split.
    + intros _. exists before, q, after. rewrite Hl. auto.
    + intros Hall. exfalso. rewrite Forall_forall in Hall.
      assert (Hin : In q (pages c)).
      { rewrite Hps. apply in_or_app. right. left. reflexivity. }
      specialize (Hall q Hin). congruence.
Qed.

(** *** What leaves the handshake alone *)

Lemma keeps_ret {A : Type} (a : A) : keeps (ret a).
Proof. intros w. reflexivity. Qed.

Lemma keeps_raise {A : Type} (e : exn) : keeps (@raise A e).
Proof. intros w. reflexivity. Qed.

Lemma keeps_bind {A B : Type} (m : M A) (k : A -> M B) :
  keeps m -> (forall a, keeps (k a)) -> keeps (bind m k).
Proof.
  intros Hm Hk w. unfold bind. specialize (Hm w).
  destruct (m w) as [w1 [a|e]]; cbn [fst] in *.
  - rewrite (Hk a w1). exact Hm.
  - exact Hm.
Qed.

Lemma keeps_try_except {A : Type} (body : M A) (handler : exn -> M A) :
  keeps body -> (forall e, keeps (handler e)) ->
  keeps (try_except body handler).
Proof.
  intros Hb Hh w. unfold try_except. specialize (Hb w).
  destruct (body w) as [w1 [a|e]]; cbn [fst] in *.
  - exact Hb.
  - destruct (is_Exception e); [|exact Hb].
    rewrite (Hh e w1). exact Hb.
Qed.

Lemma keeps_gets {A : Type} (f : World -> A) : keeps (gets f).
Proof. intros w. reflexivity. Qed.

Lemma keeps_fresh : keeps fresh.
Proof. intros w. reflexivity. Qed.

Lemma keeps_call (c : Call) : keeps (call c).
Proof. intros w. reflexivity. Qed.

Lemma keeps_await (c : Call) : keeps (await c).
Proof.
  intros w. unfold await. cbn [faults log].
  destruct (faults w) as [|[e|] rest]; reflexivity.
Qed.

Lemma keeps_set_playwright (p : option Playwright) :
  keeps (modify (set_playwright p)).
Proof. intros w. reflexivity. Qed.

Lemma keeps_set_browser_context (c : option BrowserContext) :
  keeps (modify (set_browser_context c)).
Proof. intros w. reflexivity. Qed.

Lemma keeps_map_context (f : BrowserContext -> BrowserContext) :
  keeps (modify (map_context f)).
Proof.
  intros w. unfold modify, map_context. cbn [fst].
  destruct (_browser_context w); reflexivity.
Qed.

Lemma keeps_self_get {A : Type} (attr : string) (get : Instance -> A) :
  keeps (self_get attr get).
Proof. intros w. unfold self_get. destruct (_instance w); reflexivity. Qed.

Lemma keeps_self_attr {A : Type} (attr : string)
      (get : Instance -> option A) : keeps (self_attr attr get).
Proof.
  intros w. unfold self_attr. destruct (_instance w) as [i|]; [|reflexivity].
  destruct (get i); reflexivity.
Qed.

Lemma keeps_async_initialize_done (attr : string) (b : bool) :
  keeps (self_set attr (with_async_initialize_done b)).
Proof.
  intros w. unfold self_set, handshake.
  destruct (_instance w) as [i|] eqn:E; cbn; rewrite ?E; reflexivity.
Qed.

Lemma keeps_for_each {A : Type} (xs : list A) (body : A -> M unit) :
  (forall x, keeps (body x)) -> keeps (for_each xs body).
Proof.
  intros Hb. induction xs as [|x xs IH]; cbn [for_each].
  - apply keeps_ret.
  - apply keeps_bind; [apply Hb|intros _; exact IH].
Qed.

Create HintDb keeps.

#[local] Hint Resolve keeps_ret keeps_raise keeps_gets keeps_fresh
  keeps_call keeps_await keeps_set_playwright keeps_set_browser_context
  keeps_map_context keeps_self_get keeps_self_attr
  keeps_async_initialize_done : keeps.

(** Take a method apart along its binds, handlers and branches. *)
Ltac keeps_steps :=
  repeat match goal with
         | |- keeps (bind _ _) => apply keeps_bind
         | |- keeps (try_except _ _) => apply keeps_try_except
         | |- keeps (for_each _ _) => apply keeps_for_each
         | |- forall _, _ => intro
         | |- keeps (match ?x with _ => _ end) => destruct x
         | |- keeps _ => solve [auto with keeps]
         end.

Lemma keeps_start_playwright : keeps start_playwright.
Proof. unfold start_playwright. keeps_steps. Qed.

Lemma keeps_stop_playwright : keeps stop_playwright.
Proof. unfold stop_playwright. keeps_steps. Qed.

Lemma keeps_launch_persistent_context (dir : Path) :
  keeps (launch_persistent_context dir).
Proof. unfold launch_persistent_context. keeps_steps. Qed.

Lemma keeps_create_browser_context : keeps create_browser_context.
Proof.
  pose proof keeps_launch_persistent_context.
  unfold create_browser_context, mkdtemp. keeps_steps.
Qed.

Lemma keeps_ensure_browser_context : keeps ensure_browser_context.
Proof.
  pose proof keeps_create_browser_context.
  unfold ensure_browser_context. keeps_steps.
Qed.

Lemma keeps_get_browser_context : keeps get_browser_context.
Proof.
  pose proof keeps_ensure_browser_context.
  unfold get_browser_context. keeps_steps.
Qed.

Lemma keeps_new_page (b : BrowserContext) : keeps (new_page b).
Proof. unfold new_page. keeps_steps. Qed.

Lemma keeps_page_close (page : Page) : keeps (page_close page).
Proof. unfold page_close. keeps_steps. Qed.

Lemma keeps_page_goto (page : Page) (url : string) :
  keeps (page_goto page url).
Proof. unfold page_goto. keeps_steps. Qed.

Lemma keeps_page_on (page : Page) (event : string) :
  keeps (page_on page event).
Proof. unfold page_on. keeps_steps. Qed.

Lemma keeps_expose_function (c : option BrowserContext) (name : string) :
  keeps (expose_function c name).
Proof. unfold expose_function. keeps_steps. Qed.

Lemma keeps_get_current_page_at (depth : nat) :
  keeps (get_current_page_at depth).
Proof.
  pose proof keeps_get_browser_context. pose proof keeps_new_page.
  induction depth as [|depth IH]; cbn [get_current_page_at]; keeps_steps.
Qed.

Lemma keeps_get_current_page : keeps get_current_page.
Proof. apply keeps_get_current_page_at. Qed.

#[local] Hint Resolve keeps_start_playwright keeps_stop_playwright
  keeps_create_browser_context keeps_ensure_browser_context
  keeps_get_browser_context keeps_new_page keeps_page_close keeps_page_goto
  keeps_page_on keeps_expose_function keeps_get_current_page : keeps.

Lemma keeps_get_current_url : keeps get_current_url.
Proof. unfold get_current_url. keeps_steps. Qed.

Lemma keeps_close_all_tabs (keep_first_tab : bool) :
  keeps (close_all_tabs keep_first_tab).
Proof. unfold close_all_tabs. keeps_steps. Qed.

Lemma keeps_close_except_specified_tab (page_to_keep : Page) :
  keeps (close_except_specified_tab page_to_keep).
Proof. unfold close_except_specified_tab. keeps_steps. Qed.

Lemma keeps_go_to_homepage : keeps go_to_homepage.
Proof. unfold go_to_homepage. keeps_steps. Qed.

Lemma keeps_set_navigation_handler : keeps set_navigation_handler.
Proof. unfold set_navigation_handler. keeps_steps. Qed.

Lemma keeps_set_overlay_state_handler : keeps set_overlay_state_handler.
Proof. unfold set_overlay_state_handler. keeps_steps. Qed.

Lemma keeps_set_user_response_handler : keeps set_user_response_handler.
Proof. unfold set_user_response_handler. keeps_steps. Qed.

Lemma keeps_setup_handlers : keeps setup_handlers.
Proof.
  pose proof keeps_set_navigation_handler.
  pose proof keeps_set_overlay_state_handler.
  pose proof keeps_set_user_response_handler.
  unfold setup_handlers. keeps_steps.
Qed.

Lemma keeps_overlay_state_handler (is_collapsed : bool) :
  keeps (overlay_state_handler is_collapsed).
Proof. unfold overlay_state_handler. keeps_steps. Qed.

Lemma keeps_async_initialize : keeps async_initialize.
Proof.
  pose proof keeps_setup_handlers. pose proof keeps_go_to_homepage.
  unfold async_initialize. keeps_steps.
Qed.

Lemma keeps_log_user_message (message : string) :
  keeps (log_user_message message).
Proof. unfold log_user_message. keeps_steps. Qed.

Lemma keeps_log_system_message (message : string) :
  keeps (log_system_message message).
Proof. unfold log_system_message. keeps_steps. Qed.

Lemma keeps_command_completed (command : string)
      (elapsed_time : option PyFloat.float) :
  keeps (command_completed command elapsed_time).
Proof. unfold command_completed. keeps_steps. Qed.

Lemma keeps_highlight_element (selector : string) (add_highlight : bool) :
  keeps (highlight_element selector add_highlight).
Proof. unfold highlight_element. keeps_steps. Qed.

(** *** The handshake *)

Variable escape_js_message : string -> string.

Lemma keeps_notify_user (message : string) :
  keeps (notify_user escape_js_message message).
Proof. unfold notify_user. keeps_steps. Qed.

Lemma keeps_prompt_user_begin (message : string) :
  keeps (prompt_user_begin escape_js_message message).
Proof.
  pose proof keeps_log_system_message.
  unfold prompt_user_begin. keeps_steps.
Qed.

Lemma is_set_handshake (w : World) :
  is_set w = match handshake w with
             | Some (_, Some ev, _) => ev_is_set ev
             | _ => false
             end.
Proof.
  unfold is_set, handshake. destruct (_instance w) as [i|]; [|reflexivity].
  destruct (user_response_event i); reflexivity.
Qed.

Lemma mailbox_handshake (w : World) :
  mailbox w = match handshake w with
              | Some (_, _, m) => m
              | None => None
              end.
Proof. unfold mailbox, handshake. destruct (_instance w); reflexivity. Qed.

(** What [receive_user_response] does to the handshake: the mailbox takes
    the response and the event, when there is one, is set. *)
Lemma receive_user_response_handshake (response : string) (w : World) :
  handshake (fst (receive_user_response response w)) =
    match handshake w with
    | Some (ini, Some ev, _) =>
        Some (ini, Some (mkEvent (ev_id ev) true), Some response)
    | Some (ini, None, _) => Some (ini, None, Some response)
    | None => None
    end.
Proof.
  destruct w as [[[oid ini ad b hd [ev|] ur ui]|] pw ctx n dir fs tr land];
    reflexivity.
Qed.

(** What the second half of [prompt_user] does to the handshake. *)
Lemma prompt_user_end_handshake (w : World) :
  handshake (fst (prompt_user_end w)) =
    match handshake w with
    | Some (ini, Some ev, Some _) =>
        Some (ini, Some (mkEvent (ev_id ev) false), Some "")
    | other => other
    end.
Proof.
  destruct w as [[[oid ini ad b hd [ev|] [ur|] [ui|]]|] pw ctx n dir fs tr land];
    reflexivity.
Qed.

(** What it returns is what the mailbox held. *)
Lemma prompt_user_end_result (w w' : World) (result : string) :
  prompt_user_end w = (w', Ok result) ->
  mailbox w = Some result /\ is_set w' = false /\ mailbox w' = Some "".
Proof.
  destruct w as [[[oid ini ad b hd [ev|] [ur|] [ui|]]|] pw ctx n dir fs tr land];
    lazy; intros H; inversion H; subst; repeat split.
Qed.

Lemma finish_returned (w w' : World) (result : string) :
  finish w = (w', Returned result) ->
  mailbox w = Some result /\ is_set w' = false /\ mailbox w' = Some "".
Proof.
  unfold finish. destruct (prompt_user_end w) as [w1 [r|e]] eqn:E;
    intros H; inversion H; subst.
  eapply prompt_user_end_result; eassumption.
Qed.

(** Constructing over a sound world does not touch the event's flag. *)
Lemma PlaywrightManager_handshake (w : World) (bt : string) (h g : bool) :
  sound w ->
  is_set (fst (PlaywrightManager bt h g w)) = is_set w
  /\ sound (fst (PlaywrightManager bt h g w)).
Proof.
  destruct w as [[[oid [|] ad b hd [ev|] ur ui]|] pw ctx n dir fs tr land];
    destruct g; lazy; intros Hs; try contradiction; split; exact Hs || exact I
    || reflexivity.
Qed.

Lemma classic_constructor (m : Method) :
  (exists bt h g, m = call_PlaywrightManager bt h g)
  \/ (forall bt h g, m <> call_PlaywrightManager bt h g).
Proof. destruct m; (left; eauto; fail) || (right; intros; discriminate). Qed.

Lemma fst_finish (w : World) : fst (finish w) = fst (prompt_user_end w).
Proof. unfold finish. destruct (prompt_user_end w) as [w1 [r|e]]; reflexivity. Qed.

(** The world [prompt_user] leaves when it is called and runs as far as it
    can: the handshake is as before, or as [prompt_user_end] leaves it. *)
Lemma prompt_user_handshake (message : string) (w : World) :
  handshake (fst (prompt_user escape_js_message message w)) = handshake w
  \/ handshake (fst (prompt_user escape_js_message message w)) =
       match handshake w with
       | Some (ini, Some ev, Some _) =>
           Some (ini, Some (mkEvent (ev_id ev) false), Some "")
       | other => other
       end.
Proof.
  unfold prompt_user, turn.
  pose proof (keeps_prompt_user_begin message w) as Hk.
  destruct (prompt_user_begin escape_js_message message w) as [w1 [[]|e]];
    cbn [fst] in *.
  - destruct (is_set w1).
    + right. rewrite fst_finish, prompt_user_end_handshake, Hk. reflexivity.
    + left. exact Hk.
  - left. exact Hk.
Qed.

(** Apart from the constructor, [receive_user_response] and [prompt_user],
    no method touches the handshake. *)
Lemma invoke_keeps (m : Method) (w : World) :
  is_receive_user_response m = false ->
  is_prompt_user m = false ->
  (forall bt h g, m <> call_PlaywrightManager bt h g) ->
  handshake (invoke escape_js_message m w) = handshake w.
Proof.
  intros Hr Hp Hc.
  destruct m; cbn in Hr, Hp; try discriminate; cbn [invoke].
  - exfalso. eapply Hc. reflexivity.
  - apply keeps_async_initialize.
  - apply keeps_ensure_browser_context.
  - apply keeps_setup_handlers.
  - apply keeps_start_playwright.
  - apply keeps_stop_playwright.
  - apply keeps_create_browser_context.
  - apply keeps_get_browser_context.
  - apply keeps_get_current_url.
  - apply keeps_get_current_page.
  - apply keeps_close_all_tabs.
  - apply keeps_close_except_specified_tab.
  - apply keeps_go_to_homepage.
  - apply keeps_set_navigation_handler.
  - apply keeps_set_overlay_state_handler.
  - apply keeps_overlay_state_handler.
  - apply keeps_set_user_response_handler.
  - apply keeps_notify_user.
  - apply keeps_highlight_element.
  - apply keeps_log_user_message.
  - apply keeps_log_system_message.
  - apply keeps_command_completed.
Qed.

(** The flag of the event after one method call, over a sound world: only
    [receive_user_response] can raise it, only [prompt_user] can lower it,
    and soundness is kept. *)
Lemma invoke_event (m : Method) (w : World) :
  sound w ->
  sound (invoke escape_js_message m w)
  /\ (is_set w = false -> is_set (invoke escape_js_message m w) = true ->
      is_receive_user_response m = true)
  /\ (is_set w = true -> is_set (invoke escape_js_message m w) = false ->
      is_prompt_user m = true).
Proof.
  intros Hs.
  destruct (is_receive_user_response m) eqn:Hr;
    [|destruct (is_prompt_user m) eqn:Hp].
  - destruct m; try discriminate. cbn [invoke is_prompt_user].
    unfold sound in *. rewrite !is_set_handshake.
    rewrite receive_user_response_handshake.
    destruct (handshake w) as [[[[|] [ev|]] ur]|]; cbn; auto;
      try contradiction; repeat split; auto; discriminate.
  - assert (Hh :
      handshake (invoke escape_js_message m w) = handshake w
      \/ handshake (invoke escape_js_message m w) =
           match handshake w with
           | Some (ini, Some ev, Some _) =>
               Some (ini, Some (mkEvent (ev_id ev) false), Some "")
           | other => other
           end).
    { destruct m; try discriminate; cbn [invoke].
      - apply prompt_user_handshake.
      - right. rewrite fst_finish. apply prompt_user_end_handshake. }
    unfold sound in *. rewrite !is_set_handshake.
    destruct Hh as [-> | ->];
      destruct (handshake w) as [[[[|] [ev|]] [ur|]]|]; cbn; auto;
      try contradiction; repeat split; auto; congruence.
  - destruct (classic_constructor m) as [(bt & h & g & ->)|Hc].
    + cbn [invoke].
      destruct (PlaywrightManager_handshake w bt h g Hs) as [He Hs'].
      split; [exact Hs'|]. rewrite He. split; congruence.
    + pose proof (invoke_keeps m w Hr Hp Hc) as Hk.
      unfold sound in *. rewrite !is_set_handshake, Hk.
      split; [exact Hs|]. split; congruence.
Qed.

Lemma after_sound (ms : list Method) (w : World) :
  sound w -> sound (after escape_js_message ms w).
Proof.
  revert w. induction ms as [|m ms IH]; intros w Hs; [exact Hs|].
  cbn [after fold_left]. apply IH. now apply invoke_event.
Qed.

(** C5: after every completed prompt_user call the event is cleared and the
    mailbox is the empty string; and in every world the class can reach from
    a fresh process, a method call that raises the event's flag is a
    receive_user_response, and one that lowers it is a prompt_user. *)
Theorem handshake_cycle :
  (forall w co w' result,
      finished co = false ->
      turn escape_js_message Prompt (w, co) = (w', Returned result) ->
      is_set w' = false /\ mailbox w' = Some "")
  /\ (forall dir fs land ms m,
        let w := after escape_js_message ms (fresh_world dir fs land) in
        (is_set w = false ->
         is_set (invoke escape_js_message m w) = true ->
         is_receive_user_response m = true)
        /\ (is_set w = true ->
            is_set (invoke escape_js_message m w) = false ->
            is_prompt_user m = true)).
Proof.
  split.
  - intros w co w' result Hf H. cbn [turn] in H.
    destruct co as [message| | |r|e]; try discriminate.
    + destruct (prompt_user_begin escape_js_message message w)
        as [w1 [[]|e]]; [|discriminate].
      destruct (is_set w1); [|discriminate].
      now apply finish_returned in H.
    + now apply finish_returned in H.
  - intros dir fs land ms m w.
    assert (Hs : sound w) by (apply after_sound; exact I).
    destruct (invoke_event m w Hs) as (_ & H1 & H2). split; assumption.
Qed.

(** *** One prompt and its responses on the loop *)

Lemma run_app (ts1 ts2 : list Turn) (s : World * Coroutine) :
  run escape_js_message (ts1 ++ ts2) s =
    run escape_js_message ts2 (run escape_js_message ts1 s).
Proof. unfold run. apply fold_left_app. Qed.

Lemma run_cons (t : Turn) (ts : list Turn) (s : World * Coroutine) :
  run escape_js_message (t :: ts) s =
    run escape_js_message ts (turn escape_js_message t s).
Proof. reflexivity. Qed.

(** A coroutine that waits, has returned or has failed ignores the turns
    given to it. *)
Lemma run_prompts_idle (k : nat) (w : World) (co : Coroutine) :
  match co with NotStarted _ | Released => False | _ => True end ->
  run escape_js_message (repeat Prompt k) (w, co) = (w, co).
Proof.
  intros H. induction k as [|k IH]; [reflexivity|].
  cbn [repeat]. rewrite run_cons.
  destruct co; try contradiction; cbn [turn]; exact IH.
Qed.

(** A released coroutine that returns, returns what the mailbox holds. *)
Lemma run_prompts_released (k : nat) (w w' : World) (result : string) :
  run escape_js_message (repeat Prompt k) (w, Released)
    = (w', Returned result) ->
  mailbox w = Some result.
Proof.
  destruct k as [|k]; [discriminate|].
  cbn [repeat]. rewrite run_cons. cbn [turn].
  destruct (finish w) as [w1 co1] eqn:E.
  unfold finish in E.
  destruct (prompt_user_end w) as [w2 [r|e]] eqn:E2; inversion E; subst.
  - rewrite run_prompts_idle by exact I. intros [= <- <-].
    now apply prompt_user_end_result in E2.
  - rewrite run_prompts_idle by exact I. discriminate.
Qed.

(** The same for a coroutine that has not started yet. *)
Lemma run_prompts_not_started (k : nat) (message : string) (w w' : World)
      (result : string) :
  run escape_js_message (repeat Prompt k) (w, NotStarted message)
    = (w', Returned result) ->
  mailbox w = Some result.
Proof.
  destruct k as [|k]; [discriminate|].
  cbn [repeat]. rewrite run_cons. cbn [turn].
  pose proof (keeps_prompt_user_begin message w) as Hk.
  destruct (prompt_user_begin escape_js_message message w)
    as [w1 [[]|e]]; cbn [fst] in Hk.
  - destruct (is_set w1).
    + change (finish w1) with (turn escape_js_message Prompt (w1, Released)).
      intros H.
      apply (run_prompts_released (S k)) in H.
      rewrite mailbox_handshake in *. rewrite <- Hk. exact H.
    + rewrite run_prompts_idle by exact I. discriminate.
  - rewrite run_prompts_idle by exact I. discriminate.
Qed.

Lemma receive_user_response_mailbox (response : string) (w : World)
      (x : string) :
  mailbox (fst (receive_user_response response w)) = Some x -> x = response.
Proof.
  rewrite mailbox_handshake, receive_user_response_handshake.
  destruct (handshake w) as [[[ini [ev|]] ur]|]; congruence.
Qed.

(** With one prompt on the loop: the response that is not followed by
    another one before the prompt takes up again is the one it returns, and
    a prompt that waits on a cleared event does return it. *)
Lemma run_returns_response :
  (forall w message before response k w' result,
      finished (snd (run escape_js_message before (w, NotStarted message)))
        = false ->
      run escape_js_message (before ++ Receive response :: repeat Prompt k)
          (w, NotStarted message) = (w', Returned result) ->
      result = response)
  /\ (forall w self ev ui response k,
        _instance w = Some self ->
        user_response_event self = Some ev ->
        ev_is_set ev = false ->
        ui_manager self = Some ui ->
        exists w',
          run escape_js_message (Receive response :: repeat Prompt (S k))
              (w, Waiting) = (w', Returned response)
          /\ is_set w' = false).
Proof.
  split.
  - intros w message before response k w' result Hf H.
    rewrite run_app in H.
    destruct (run escape_js_message before (w, NotStarted message))
      as [w1 co1].
    cbn [snd] in Hf. rewrite run_cons in H.
    apply (receive_user_response_mailbox response w1).
    destruct co1 as [m| | |r|e]; try discriminate; cbn [turn] in H.
    + now apply run_prompts_not_started in H.
    + destruct (negb (is_set w1)
                && is_set (fst (receive_user_response response w1))).
      * now apply run_prompts_released in H.
      * rewrite run_prompts_idle in H by exact I. discriminate.
    + now apply run_prompts_released in H.
  - intros w self ev ui response k Hi He Hu Hui.
    destruct w as [inst pw ctx n dir fs tr land]. cbn in Hi. subst inst.
    destruct self as [oid ini ad b hd e ur u]. cbn in He, Hui. subst e u.
    destruct ev as [eid flag]. cbn in Hu. subst flag.
    cbn [repeat]. rewrite !run_cons.
    eexists. split.
    + match goal with
      | |- run _ _ ?s = _ =>
          let v := eval lazy in s in change s with v
      end.
      rewrite run_prompts_idle by exact I. reflexivity.
    + reflexivity.
Qed.

(** *** Several prompts on the loop *)














End ManagerProperties.

(** ** The statements at concrete worlds *)

(** ** What passes [except Exception] *)

Section Signals.
Import Manager.

Lemma passes_signals_ret {A : Type} (a : A) : passes_signals (ret a).
Proof. intros w. split; [apply incl_refl|discriminate]. Qed.

Lemma passes_signals_raise {A : Type} (e : exn) :
  is_Exception e = true -> passes_signals (@raise A e).
Proof.
  intros He w. split; [apply incl_refl|].
  cbn. intros e' [= <-]. congruence.
Qed.

Lemma passes_signals_bind {A B : Type} (m : M A) (k : A -> M B) :
  passes_signals m -> (forall a, passes_signals (k a)) ->
  passes_signals (bind m k).
Proof.
  intros Hm Hk w. unfold bind. destruct (Hm w) as [Hi He].
  destruct (m w) as [w1 [a|e]]; cbn [fst snd] in *.
  - destruct (Hk a w1) as [Hi1 He1]. split.
    + eapply incl_tran; eassumption.
    + intros e H1 H2. apply Hi. now apply He1.
  - split; [exact Hi|]. intros e0 [= <-]. now apply He.
Qed.

Lemma passes_signals_try_except {A : Type} (body : M A)
      (handler : exn -> M A) :
  passes_signals body ->
  (forall e, is_Exception e = true -> passes_signals (handler e)) ->
  passes_signals (try_except body handler).
Proof.
  intros Hb Hh w. unfold try_except. destruct (Hb w) as [Hi He].
  destruct (body w) as [w1 [a|e]]; cbn [fst snd] in *.
  - split; [exact Hi|discriminate].
  - destruct (is_Exception e) eqn:Ex.
    + destruct (Hh e Ex w1) as [Hi1 He1]. split.
      * eapply incl_tran; eassumption.
      * intros e' H1 H2. apply Hi. now apply He1.
    + split; assumption.
Qed.

Lemma passes_signals_gets {A : Type} (f : World -> A) :
  passes_signals (gets f).
Proof. intros w. split; [apply incl_refl|discriminate]. Qed.

Lemma passes_signals_modify (f : World -> World) :
  (forall w, faults (f w) = faults w) -> passes_signals (modify f).
Proof.
  intros Hf w. cbn [modify fst snd]. rewrite Hf.
  split; [apply incl_refl|discriminate].
Qed.

Lemma passes_signals_fresh : passes_signals fresh.
Proof. intros w. split; [apply incl_refl|discriminate]. Qed.

Lemma passes_signals_call (c : Call) : passes_signals (call c).
Proof. intros w. split; [apply incl_refl|discriminate]. Qed.

Lemma passes_signals_await (c : Call) : passes_signals (await c).
Proof.
  intros w. unfold await. cbn [faults log].
  destruct (faults w) as [|[e|] rest] eqn:E;
    cbn [fst snd faults set_faults log].
  - rewrite E. split; [apply incl_refl|discriminate].
  - split; [apply incl_tl, incl_refl|].
    intros e' [= <-] _. left. reflexivity.
  - split; [apply incl_tl, incl_refl|discriminate].
Qed.

Lemma passes_signals_set_browser_context (c : option BrowserContext) :
  passes_signals (modify (set_browser_context c)).
Proof. apply passes_signals_modify. reflexivity. Qed.

Lemma passes_signals_map_context (f : BrowserContext -> BrowserContext) :
  passes_signals (modify (map_context f)).
Proof.
  apply passes_signals_modify. intros w. unfold map_context.
  destruct (_browser_context w); reflexivity.
Qed.

Lemma passes_signals_self_attr {A : Type} (attr : string)
      (get : Instance -> option A) : passes_signals (self_attr attr get).
Proof.
  intros w. unfold self_attr. destruct (_instance w) as [i|].
  - destruct (get i); (split; [apply incl_refl|]); cbn;
      [discriminate|intros e [= <-]; discriminate].
  - split; [apply incl_refl|]. cbn. intros e [= <-]. discriminate.
Qed.

Create HintDb signals.

#[local] Hint Resolve passes_signals_ret passes_signals_gets
  passes_signals_fresh passes_signals_call passes_signals_await
  passes_signals_set_browser_context passes_signals_map_context
  passes_signals_self_attr : signals.

(** Take a method apart along its binds, handlers and branches. *)
Ltac signals_steps :=
  repeat match goal with
         | |- passes_signals (bind _ _) => apply passes_signals_bind
         | |- passes_signals (try_except _ _) =>
             apply passes_signals_try_except
         | |- passes_signals (raise _) =>
             apply passes_signals_raise; (reflexivity || assumption)
         | |- forall _, _ => intro
         | |- passes_signals (match ?x with _ => _ end) => destruct x
         | |- passes_signals _ => solve [auto with signals]
         end.

Lemma passes_signals_launch_persistent_context (dir : Path) :
  passes_signals (launch_persistent_context dir).
Proof. unfold launch_persistent_context. signals_steps. Qed.

Lemma passes_signals_create_browser_context :
  passes_signals create_browser_context.
Proof.
  pose proof passes_signals_launch_persistent_context.
  unfold create_browser_context, mkdtemp. signals_steps.
Qed.

Lemma passes_signals_get_browser_context :
  passes_signals get_browser_context.
Proof.
  pose proof passes_signals_create_browser_context.
  unfold get_browser_context, ensure_browser_context. signals_steps.
Qed.

Lemma passes_signals_new_page (b : BrowserContext) :
  passes_signals (new_page b).
Proof. unfold new_page. signals_steps. Qed.

Lemma passes_signals_get_current_page_at (depth : nat) :
  passes_signals (get_current_page_at depth).
Proof.
  pose proof passes_signals_get_browser_context.
  pose proof passes_signals_new_page.
  induction depth as [|depth IH]; cbn [get_current_page_at]; signals_steps.
Qed.

Lemma passes_signals_highlight_element (selector : string)
      (add_highlight : bool) :
  passes_signals (highlight_element selector add_highlight).
Proof.
  pose proof (passes_signals_get_current_page_at recursion_limit) as Hp.
  fold get_current_page in Hp.
  unfold highlight_element. signals_steps.
Qed.

(** C10, as amended: get_current_url propagates no [Exception].  It returns
    the URL of the page get_current_page gave, and None when
    get_current_page raised an [Exception]; what get_current_page raised
    that is not an [Exception] leaves get_current_url as it is.  So whatever
    get_current_url raises is a cancellation that the outside delivered at
    one of the awaited calls, and while no task is cancelled it returns. *)
Theorem get_current_url_result (w : World) :
  (forall w' page,
      get_current_page w = (w', Ok page) ->
      get_current_url w = (w', Ok (Some (page_url page))))
  /\ (forall w' e,
        get_current_page w = (w', Raise e) ->
        get_current_url w =
          (w', if is_Exception e then Ok None else Raise e))
  /\ (forall w' e,
        get_current_url w = (w', Raise e) ->
        is_Exception e = false /\ In (Some e) (faults w))
  /\ (no_cancellation w -> exists w' url, get_current_url w = (w', Ok url)).
Proof.
  assert (H1 : forall w' page,
             get_current_page w = (w', Ok page) ->
             get_current_url w = (w', Ok (Some (page_url page)))).
  { intros w' page H. unfold get_current_url, try_except, bind.
    rewrite H. reflexivity. }
  assert (H2 : forall w' e,
             get_current_page w = (w', Raise e) ->
             get_current_url w =
               (w', if is_Exception e then Ok None else Raise e)).
  { intros w' e H. unfold get_current_url, try_except, bind.
    rewrite H. destruct (is_Exception e); reflexivity. }
  assert (H3 : forall w' e,
             get_current_url w = (w', Raise e) ->
             is_Exception e = false /\ In (Some e) (faults w)).
  { intros w' e H.
    destruct (passes_signals_get_current_page_at recursion_limit w)
      as [_ Hsig].
    fold get_current_page in Hsig.
    destruct (get_current_page w) as [w1 [page|e1]] eqn:E.
    - rewrite (H1 _ _ eq_refl) in H. discriminate.
    - rewrite (H2 _ _ eq_refl) in H.
      destruct (is_Exception e1) eqn:Ex; [discriminate|].
      injection H as <- <-. split; [exact Ex|].
      apply Hsig; [reflexivity|exact Ex]. }
  split; [exact H1|]. split; [exact H2|]. split; [exact H3|].
  intros Hn. destruct (get_current_url w) as [w' [url|e]] eqn:E.
  - eauto.
  - destruct (H3 w' e eq_refl) as [Ex Hin].
    rewrite (Hn e Hin) in Ex. discriminate.
Qed.

End Signals.

Section Instances.
Import Manager.

(** Three constructions with three different sets of arguments. *)
Lemma PlaywrightManager_singleton_witness :
  exists self w1,
    PlaywrightManager "chromium" false true (fresh_world None [] with_path)
      = (w1, Ok (obj_id self))
    /\ construct_all [("firefox", true, false); ("webkit", true, true)] w1
       = (w1, [Ok (obj_id self); Ok (obj_id self)])
    /\ browser_type self = Some "chromium"
    /\ isheadless self = Some false
    /\ user_response_event self = Some (mkEvent 1 false).
Proof.
  destruct (PlaywrightManager_singleton
              (fresh_world None [] with_path) "chromium" false true
              [("firefox", true, false); ("webkit", true, true)])
    as (self & w1 & E & Hi & Hall & Hfirst).
  destruct (Hfirst eq_refl) as (_ & Hb & Hh & He & _).
  exists self, w1. repeat split; assumption.
Defined.

(** A manager asked for Firefox. *)
Lemma create_browser_context_unsupported_witness :
  let w := fst (PlaywrightManager "firefox" false true
                                  (fresh_world None [] with_path))
  in
  create_browser_context w =
    (w, Raise (Exn ValueError "Unsupported browser type: firefox")).
Proof.
  intros w.
  eapply (create_browser_context_unsupported w _ "firefox").
  - lazy. reflexivity.
  - reflexivity.
  - discriminate.
Defined.

(** A first launch that finds the profile directory in use, then a launch
    that works. *)
Lemma create_browser_context_retry_witness :
  let closed :=
    Exn PlaywrightError
        "BrowserType.launch_persistent_context: Target page, context or browser has been closed" in
  let w0 := fresh_world (Some "/data") [None; Some closed] with_path in
  let w := fst (start_playwright
                  (fst (PlaywrightManager "chromium" false true w0))) in
  exists w',
    create_browser_context w = (w', Ok tt)
    /\ option_map ctx_user_dir (_browser_context w') = Some (TempDir 4)
    /\ trace w' =
         [NewEvent 1; NewUIManager 2; PlaywrightStart;
          LaunchPersistentContext (ConfiguredDir "/data") false;
          Mkdtemp 4; LaunchPersistentContext (TempDir 4) false].
Proof.
  intros closed w0 w.
  assert (H : exists self pw,
             _instance w = Some self /\ browser_type self = Some "chromium"
             /\ isheadless self = Some false /\ _playwright w = Some pw
             /\ faults w = [Some closed]).
  { lazy. eexists. eexists. repeat split. }
  destruct H as (self & pw & H1 & H2 & H3 & H4 & H5).
  destruct (create_browser_context_retry w self pw false closed []
              H1 H2 H3 H4 H5) as [Hretry _].
  eexists. split; [apply Hretry; reflexivity|]. split; reflexivity.
Defined.

(** An initialized manager, initialized again. *)
Lemma lifecycle_idempotent_witness :
  async_initialize ready_world = (ready_world, Ok tt)
  /\ twice async_initialize ready_world = async_initialize ready_world
  /\ start_playwright ready_world = (ready_world, Ok tt)
  /\ ensure_browser_context ready_world = (ready_world, Ok tt).
Proof.
  destruct (lifecycle_idempotent ready_world)
    as (Hs & He & Ha & _ & _ & Htwice).
  split; [|split; [exact Htwice|split]].
  - eapply Ha; lazy; reflexivity.
  - eapply Hs; lazy; reflexivity.
  - eapply He; lazy; reflexivity.
Defined.

(** One open tab; then no open tab. *)
Lemma get_current_page_tracks_active_tab_witness :
  (exists q, get_current_page ready_world = (ready_world, Ok q)
             /\ page_closed q = false)
  /\ (let w := fst (close_all_tabs false ready_world) in
      exists w', get_current_page w = (w', Ok (mkPage 6 "about:blank" false []))
                 /\ option_map (fun c => map page_id (pages c))
                               (_browser_context w') = Some [5; 6]).
Proof.
  split.
  - assert (Hc : exists c, _browser_context ready_world = Some c
                           /\ map page_id (pages c) = [5]
                           /\ map page_closed (pages c) = [false]).
    { lazy. eexists. repeat split. }
    destruct Hc as (c & Hc & Hids & Hopen).
    destruct (get_current_page_tracks_active_tab ready_world c Hc)
      as [Hlast _].
    destruct Hlast as (before & q & after & Hps & Hq & _ & Hg).
    + destruct (pages c) as [|p [|p' ps]]; try discriminate.
      exists p. split; [left; reflexivity|]. now inversion Hopen.
    + exists q. split; [exact Hg|exact Hq].
  - intros w.
    assert (Hc : exists c, _browser_context w = Some c
                           /\ map page_id (pages c) = [5]
                           /\ map page_closed (pages c) = [true]
                           /\ next_id w = 6 /\ faults w = []).
    { lazy. eexists. repeat split. }
    destruct Hc as (c & Hc & Hids & Hclosed & Hn & Hf).
    destruct (get_current_page_tracks_active_tab w c Hc) as [_ Hnew].
    destruct Hnew as (w' & Hg & Hctx & _).
    + destruct (pages c) as [|p [|p' ps]]; try discriminate.
      inversion Hclosed. repeat constructor; assumption.
    + rewrite Hf. reflexivity.
    + exists w'. rewrite Hn in *. split; [exact Hg|].
      rewrite Hctx. cbn. rewrite map_app, Hids. reflexivity.
Defined.


(** Two prompts wait and one answer arrives: [set()] releases both; the
    first to take up returns the answer and empties the mailbox, and the
    second, which does not look at the flag again, returns the empty
    string. *)
Lemma prompt_user_two_waiters :
  let escape := fun message : string => message in
  loop escape
       [Resume 0; Resume 1; Callback (call_receive_user_response "yes")]
       (ready_world, [NotStarted "Proceed?"; NotStarted "Sure?"])
    = (fst (receive_user_response "yes"
              (fst (prompt_user escape "Sure?"
                      (fst (prompt_user escape "Proceed?" ready_world))))),
       [Released; Released])
  /\ snd (loop escape
            [Resume 0; Resume 1; Callback (call_receive_user_response "yes");
             Resume 0; Resume 1]
            (ready_world, [NotStarted "Proceed?"; NotStarted "Sure?"]))
     = [Returned "yes"; Returned ""].
Proof. lazy. split; reflexivity. Qed.



(** The end of an answered prompt, and the call that raised the flag. *)
Lemma handshake_cycle_witness :
  (let w := fst (receive_user_response "yes" ready_world) in
   let w' := fst (turn (fun message => message) Prompt (w, Released)) in
   is_set w = true /\ is_set w' = false /\ mailbox w' = Some "")
  /\ is_receive_user_response (call_receive_user_response "yes") = true.
Proof.
  destruct (handshake_cycle (fun message => message)) as [Hend Honly].
  split.
  - intros w w'. split; [lazy; reflexivity|].
    eapply (Hend w Released w' "yes").
    + reflexivity.
    + lazy. reflexivity.
  - eapply (proj1 (Honly None [] with_path
                     [call_PlaywrightManager "chromium" false true;
                      call_async_initialize]
                     (call_receive_user_response "yes"))).
    + lazy. reflexivity.
    + lazy. reflexivity.
Defined.

(** The current page of the ready process; and a process whose browser
    refuses every launch. *)
Lemma get_current_url_result_witness :
  get_current_url ready_world =
    (ready_world, Ok (Some "https://www.google.com/"))
  /\ (let refused := Exn PlaywrightError "Failed to launch" in
      let w := fst (PlaywrightManager "chromium" false true
                      (fresh_world None [None; Some refused; Some refused]
                                   with_path)) in
      exists w', get_current_url (fst (start_playwright w)) = (w', Ok None)).
Proof.
  split.
  - eapply (proj1 (get_current_url_result ready_world) ready_world
              (mkPage 5 "https://www.google.com/" false ["domcontentloaded"])).
    lazy. reflexivity.
  - intros refused w. eexists.
    eapply (proj1 (proj2 (get_current_url_result (fst (start_playwright w))))
              _ refused).
    lazy. reflexivity.
Defined.

(** The task is cancelled while get_current_url awaits the launch of the
    browser. *)
Lemma get_current_url_cancelled :
  let w := fst (start_playwright
                  (fst (PlaywrightManager "chromium" false true
                          (fresh_world None [None; Some Cancelled]
                                       with_path)))) in
  snd (get_current_url w) = Raise Cancelled.
Proof. lazy. reflexivity. Qed.

(** C10 as stated fails: a state in which get_current_url returns neither
    a URL nor None, because an exception leaves it. *)
Lemma get_current_url_propagates_cancellation :
  ~ (forall w : World, exists w' url, get_current_url w = (w', Ok url)).
Proof.
  intros H.
  pose proof get_current_url_cancelled as Hc. cbv zeta in Hc.
  match type of Hc with
  | snd (get_current_url ?w) = _ => destruct (H w) as (w' & url & E)
  end.
  rewrite E in Hc. discriminate.
Qed.

End Instances.

(** * Further properties *)

(** ** The substring test *)

Section Substring.

Lemma prefix_append (needle hay : string) :
  prefix needle hay = true <-> exists post, hay = needle ++ post.
Proof.
  revert hay. induction needle as [|a needle IH]; intros hay.
  - destruct hay; cbn; split; eauto.
  - destruct hay as [|b hay]; cbn.
    + split; [discriminate|]. intros [post H]. discriminate.
    + destruct (ascii_dec a b) as [->|Hne].
      * rewrite IH. split; intros [post H]; exists post.
        -- now rewrite H.
        -- now inversion H.
      * split; [discriminate|]. intros [post H]. inversion H. congruence.
Qed.

(** X1: the substring test is Python's [in]: it holds exactly when the
    haystack is some text, then the needle, then some text. *)
Theorem contains_substring (needle hay : string) :
  contains needle hay = true <->
  exists pre post, hay = pre ++ needle ++ post.
Proof.
  induction hay as [|c hay IH].
  - cbn [contains]. destruct (prefix needle "") eqn:E.
    + split; [|reflexivity]. intros _.
      apply prefix_append in E. destruct E as [post E].
      exists "", post. exact E.
    + split; [discriminate|]. intros (pre & post & H).
      assert (Hp : prefix needle "" = true).
      { apply prefix_append. destruct pre; [|discriminate]. eauto. }
      congruence.
  - cbn [contains]. destruct (prefix needle (String c hay)) eqn:E.
    + split; [|reflexivity]. intros _.
      apply prefix_append in E. destruct E as [post E].
      exists "", post. exact E.
    + rewrite IH. split.
      * intros (pre & post & ->). exists (String c pre), post. reflexivity.
      * intros (pre & post & H). destruct pre as [|c' pre].
        -- assert (Hp : prefix needle (String c hay) = true).
           { apply prefix_append. eauto. }
           congruence.
        -- inversion H. eauto.
Qed.

End Substring.

(** ** More on pause_flow *)

Section PauseFlowMore.
Import PyFloat PauseFlow.
Local Open Scope Z_scope.

Lemma binary_round_aux_exponent (sx : bool) (m e : Z) (l : location)
      (s' : bool) (m' : positive) (e' : Z) :
  0 < m -> emin prec emax <= e ->
  binary_round_aux prec emax sx m e l = S754_finite s' m' e' ->
  s' = sx /\ e <= e'.
Proof.
  intros Hm He. unfold binary_round_aux.
  destruct (shr_fexp_pos m e l Hm He) as [H1 H1e].
  destruct (shr_fexp prec emax m e l) as [mrs1 e1]. cbn [fst snd] in *.
  pose proof (round_nearest_even_pos (shr_m mrs1) (loc_of_shr_record mrs1) H1)
    as H2.
  destruct (shr_fexp_pos _ e1 loc_Exact H2 ltac:(lia)) as [H3 H3e].
  destruct (shr_fexp prec emax _ e1 loc_Exact) as [mrs2 e2].
  cbn [fst snd] in *.
  destruct (shr_m mrs2) as [|q|q]; try discriminate.
  destruct (e2 <=? emax - prec); [|discriminate].
  intros [= <- <- <-]. split; [reflexivity|lia].
Qed.

Lemma digits2_pos_two (p : positive) : (1 < p)%positive -> 2 <= Zpos (digits2_pos p).
Proof. destruct p; cbn [digits2_pos]; lia. Qed.

(** The float of an integer above one has an exponent above that of 1.0. *)
Lemma binary_round_exponent (sx : bool) (p : positive)
      (s' : bool) (m' : positive) (e' : Z) :
  (1 < p)%positive ->
  binary_round prec emax sx p 0 = S754_finite s' m' e' ->
  s' = sx /\ -51 <= e'.
Proof.
  intros Hp. unfold binary_round.
  pose proof (digits2_pos_two p Hp) as Hd.
  destruct (shl_align p 0 _) as [mz ez] eqn:E.
  assert (Hez : -51 <= ez).
  { unfold shl_align in E.
    destruct (fexp prec emax (Zpos (digits2_pos p) + 0) - 0) eqn:E2;
      inversion E; subst; unfold fexp, emin, prec, emax in *; lia. }
  intros H. apply binary_round_aux_exponent in H.
  - destruct H as [-> H]. split; [reflexivity|lia].
  - lia.
  - unfold emin, prec, emax. lia.
Qed.

(** [float(z) == 1] exactly when [z == 1]. *)
Lemma of_int_one (z : Z) (f : float) :
  of_int z = Ok f -> (eqb f one = true <-> z = 1).
Proof.
  unfold of_int, binary_normalize. destruct z as [|p|p].
  - intros [= <-]. cbn. split; [discriminate|lia].
  - destruct (Pos.eq_dec p 1) as [->|Hne].
    + intros [= <-]. split; reflexivity.
    + destruct (binary_round prec emax false p 0) as [s|s| |s m e] eqn:E;
        intros [= <-]; (split; [|lia]).
      * cbn. discriminate.
      * cbn. discriminate.
      * apply binary_round_exponent in E; [|lia]. destruct E as [-> He].
        unfold eqb, one, SFeqb, SFcompare.
        destruct (Z.compare_spec e (-52)); try lia; discriminate.
  - destruct (binary_round prec emax true p 0) as [s|s| |s m e] eqn:E;
      intros [= <-]; (split; [|lia]).
    + cbn. destruct s; discriminate.
    + cbn. discriminate.
    + destruct (binary_round_sign true p) as [(m' & e' & E')|E'];
        rewrite E' in E; [|discriminate].
      inversion E; subst. cbn. discriminate.
Qed.

Variable float_repr : float -> string.

(** X2: on an int, the singular is used for 1 and for no other value. *)
Theorem pause_flow_int_singular (z : Z) (seconds : float) :
  to_float (DInt z) = Ok seconds ->
  0 <= z ->
  pause_flow float_repr (DInt z) =
    ([Sleep seconds],
     Ok (("Paused for " ++ float_repr seconds
            ++ (if (z =? 1)%Z then " second." else " seconds."))%string)).
Proof.
  intros Hf Hz.
  rewrite (pause_flow_completes float_repr (DInt z) seconds Hf Hz).
  pose proof (of_int_one z seconds Hf) as H1.
  destruct (eqb seconds one) eqn:E.
  - assert (z = 1) by now apply H1. subst z. reflexivity.
  - destruct (Z.eqb_spec z 1) as [->|Hne]; [|reflexivity].
    destruct H1 as [_ H1]. specialize (H1 eq_refl). discriminate.
Qed.

(** X3: whatever the duration and whatever the sleep does, what leaves
    pause_flow is a ValueError, or it is what the sleep itself raised and not
    an [Exception] (the cancellation of the task, which neither handler
    catches); the sleep is requested at most once, and only with a float
    value that is not below zero. *)
Theorem pause_flow_raises_only_ValueError
        (sleep_outcome : option exn) (duration : Duration)
        (tr : list effect) (r : result string) :
  pause_flow_with float_repr sleep_outcome duration = (tr, r) ->
  (forall e, r = Raise e ->
     is_ValueError e = true
     \/ (sleep_outcome = Some e /\ is_Exception e = false))
  /\ (tr = []
      \/ exists seconds,
           to_float duration = Ok seconds
           /\ ltb seconds zero = false
           /\ tr = [Sleep seconds]).
Proof.
  assert (Hexcept : forall e, is_ValueError (pause_flow_except e) = true).
  { intros e. unfold pause_flow_except.
    destruct (is_ValueError e); [destruct (contains _ _)|]; reflexivity. }
  unfold pause_flow_with, pause_flow_try.
  destruct (to_float duration) as [seconds|e0] eqn:Hf.
  - destruct (ltb seconds zero) eqn:Hlt.
    + intros [= <- <-]. split; [|left; reflexivity].
      intros e [= <-]. left. reflexivity.
    + destruct sleep_outcome as [e1|].
      * destruct (is_Exception e1) eqn:Ex; intros [= <- <-];
          (split; [|right; eauto]); intros e [= <-]; auto.
      * intros [= <- <-]. split; [|right; eauto]. intros e; discriminate.
  - assert (He0 : is_Exception e0 = true).
    { destruct duration as [z|f]; cbn [to_float] in Hf; [|discriminate].
      rewrite (of_int_raises z e0 Hf). reflexivity. }
    rewrite He0. intros [= <- <-]. split; [|left; reflexivity].
    intros e [= <-]. auto.
Qed.

End PauseFlowMore.

(** ** More on the manager *)

Section ManagerMore.
Import Manager.

(** *** Stopping *)

(** X4: stop_playwright resets both class attributes when it returns; it does
    nothing when nothing was started; and when closing the context raises,
    the exception propagates with both attributes as they were and without
    Playwright being stopped. *)
Theorem stop_playwright_resets (w : World) :
  (forall w', stop_playwright w = (w', Ok tt) ->
              _browser_context w' = None /\ _playwright w' = None)
  /\ (_browser_context w = None -> _playwright w = None ->
      stop_playwright w = (w, Ok tt))
  /\ (forall c e rest,
        _browser_context w = Some c ->
        faults w = Some e :: rest ->
        stop_playwright w =
          (set_faults rest (log (ContextClose (ctx_id c)) w), Raise e)).
Proof.
  destruct w as [inst pw ctx n dir fs tr land].
  split; [|split].
  - intros w'. unfold stop_playwright, bind, gets, await, modify.
    destruct ctx as [c|]; destruct pw as [p|];
      destruct fs as [|[e|] [|[e'|] rest]]; lazy -[app];
      intros H; inversion H; split; reflexivity.
  - cbn. intros -> ->. reflexivity.
  - cbn. intros c e rest -> ->. reflexivity.
Qed.

(** *** The browser context *)

(** What get_browser_context returns is the context the manager holds. *)
Lemma get_browser_context_holds (w w' : World)
        (r : option BrowserContext) :
  get_browser_context w = (w', Ok r) ->
  exists c, r = Some c /\ _browser_context w' = Some c.
Proof.
  unfold get_browser_context, bind, gets.
  destruct (ensure_browser_context w) as [w1 [[]|e]] eqn:E; [|discriminate].
  intros [= <- <-].
  destruct (ensure_browser_context_stores w w1 E) as [c Hc].
  exists c. split; assumption.
Qed.

(** X5: get_browser_context never returns None: when it returns, it returns
    the context that _browser_context holds. *)
Theorem get_browser_context_returns (w w' : World)
        (r : option BrowserContext) :
  get_browser_context w = (w', Ok r) ->
  exists c, r = Some c /\ _browser_context w' = Some c.
Proof. exact (get_browser_context_holds w w' r). Qed.

Lemma await_context (c : Call) (w : World) :
  _browser_context (fst (await c w)) = _browser_context w.
Proof.
  unfold await. cbn [faults log].
  destruct (faults w) as [|[e|] rest]; reflexivity.
Qed.

(** [new_page] appends an open page to the context it was asked on. *)
Lemma new_page_last (b : BrowserContext) (w w' : World) (page : Page) :
  _browser_context w = Some b ->
  new_page b w = (w', Ok page) ->
  exists c, _browser_context w' = Some c
            /\ last_page (filter is_open (pages c)) = Some page.
Proof.
  intros Hb. unfold new_page, bind, fresh, modify, ret.
  pose proof (await_context (NewPage (ctx_id b)) w) as Hc.
  destruct (await (NewPage (ctx_id b)) w) as [w1 [[]|e]]; [|discriminate].
  cbn [fst] in Hc. rewrite Hb in Hc.
  intros [= <- <-].
  unfold map_context. cbn [_browser_context set_next_id]. rewrite Hc.
  unfold add_page. rewrite Nat.eqb_refl. cbn [_browser_context set_browser_context pages].
  eexists. split; [reflexivity|]. cbn [pages].
  rewrite filter_app. cbn [filter is_open page_closed negb].
  clear. induction (filter is_open (pages b)) as [|p [|q l] IH]; try reflexivity.
  exact IH.
Qed.

Lemma get_current_page_at_last (depth : nat) (w w' : World) (page : Page) :
  get_current_page_at depth w = (w', Ok page) ->
  exists c, _browser_context w' = Some c
            /\ last_page (filter is_open (pages c)) = Some page.
Proof.
  revert w w' page. induction depth as [|depth IH]; intros w w' page;
    cbn [get_current_page_at]; [discriminate|].
  unfold try_except, bind at 1.
  destruct (get_browser_context w) as [w1 [r|e]] eqn:E.
  - destruct (get_browser_context_holds w w1 r E) as (b & -> & Hb).
    destruct (last_page (filter is_open (pages b))) as [q|] eqn:El.
    + intros [= <- <-]. eauto.
    + destruct (new_page b w1) as [w2 [q|e]] eqn:En.
      * intros [= <- <-]. eapply new_page_last; eassumption.
      * destruct (is_Exception e); [|discriminate].
        unfold bind, modify.
        destruct (get_browser_context (set_browser_context None w2))
          as [w3 [r3|e3]]; [|discriminate].
        apply IH.
  - destruct (is_Exception e); [|discriminate].
    unfold bind, modify.
    destruct (get_browser_context (set_browser_context None w1))
      as [w3 [r3|e3]]; [|discriminate].
    apply IH.
Qed.

(** X6: whichever way get_current_page comes to its result (the last open
    page, a new page, or a page of a context launched afresh), the page it
    returns is in the context the manager then holds, is not closed, and only
    closed pages follow it. *)
Theorem get_current_page_result (w w' : World) (page : Page) :
  get_current_page w = (w', Ok page) ->
  exists c before after,
    _browser_context w' = Some c
    /\ pages c = (before ++ page :: after)%list
    /\ page_closed page = false
    /\ Forall (fun x => page_closed x = true) after.
Proof.
  intros H. apply get_current_page_at_last in H.
  destruct H as (c & Hc & Hl).
  destruct (last_open_page (pages c))
    as [[Hnone _]|(before & q & after & Hps & Hq & Hafter & Hl')].
  - congruence.
  - rewrite Hl' in Hl. inversion Hl; subst q.
    exists c, before, after. auto.
Qed.

(** *** Navigation *)

Lemma last_page_map (g : Page -> Page) (ps : list Page) :
  last_page (map g ps) = option_map g (last_page ps).
Proof.
  induction ps as [|p [|q ps] IH]; try reflexivity.
  cbn [map last_page] in *. exact IH.
Qed.

Lemma filter_open_map (g : Page -> Page) (ps : list Page) :
  (forall p, page_closed (g p) = page_closed p) ->
  filter is_open (map g ps) = map g (filter is_open ps).
Proof.
  intros Hg. induction ps as [|p ps IH]; [reflexivity|].
  cbn [map filter].
  assert (Ho : is_open (g p) = is_open p) by (unfold is_open; now rewrite Hg).
  rewrite Ho. destruct (is_open p); cbn [map]; now rewrite IH.
Qed.

(** The current page of a world whose context has an open page. *)
Lemma get_current_page_open (w : World) (c : BrowserContext) (q : Page) :
  _browser_context w = Some c ->
  last_page (filter is_open (pages c)) = Some q ->
  get_current_page w = (w, Ok q).
Proof.
  intros Hc Hl.
  change (get_current_page w)
    with (get_current_page_at (S (Nat.pred recursion_limit)) w).
  rewrite (get_current_page_at_present _ w c Hc), Hl. reflexivity.
Qed.

(** What an awaited call leaves as it was, and what it adds. *)
Lemma await_world (c : Call) (w : World) :
  _browser_context (fst (await c w)) = _browser_context w
  /\ trace (fst (await c w)) = (trace w ++ [c])%list
  /\ landing (fst (await c w)) = landing w.
Proof.
  unfold await. cbn [faults log].
  destruct (faults w) as [|[e|] rest]; repeat split.
Qed.

(** A page that [goto(url)] has returned on is still the last open page,
    at the address the browser reported for that call, which is the last
    call made. *)
Lemma page_goto_context (page : Page) (url : string) (w w' : World)
      (c : BrowserContext) :
  _browser_context w = Some c ->
  last_page (filter is_open (pages c)) = Some page ->
  page_goto page url w = (w', Ok tt) ->
  exists c',
    _browser_context w' = Some c'
    /\ last_page (filter is_open (pages c')) =
         Some (page_at (landing w (length (trace w)) url) page)
    /\ trace w' = (trace w ++ [Goto (page_id page) url])%list
    /\ landing w' = landing w.
Proof.
  intros Hc Hl. unfold page_goto, bind, gets, modify.
  destruct (await_world (Goto (page_id page) url) w) as (Ha & Ht & Hd).
  destruct (await (Goto (page_id page) url) w) as [w1 [[]|e]]; [|discriminate].
  cbn [fst] in Ha, Ht, Hd. rewrite Hc in Ha. intros [= <-].
  unfold map_context. rewrite Ha, Hd.
  eexists. split; [reflexivity|]. split; [|split].
  - unfold update_page. cbn [pages].
    rewrite filter_open_map, last_page_map, Hl.
    + cbn [option_map]. rewrite Nat.eqb_refl. reflexivity.
    + intros p. destruct (Nat.eqb (page_id p) (page_id page)); reflexivity.
  - exact Ht.
  - exact Hd.
Qed.

(** X7: once go_to_homepage has returned, the last call made is the
    [goto] of the homepage, on the page that is now the current one;
    get_current_page and get_current_url answer from that page without a
    further call, and the URL is the address the browser reported for that
    navigation. *)
Theorem go_to_homepage_then_url (w w' : World) :
  go_to_homepage w = (w', Ok tt) ->
  exists (page : Page) (calls : list Call),
    trace w' = (calls ++ [Goto (page_id page) _homepage])%list
    /\ get_current_page w' =
         (w', Ok (page_at (landing w' (length calls) _homepage) page))
    /\ get_current_url w' =
         (w', Ok (Some (landing w' (length calls) _homepage))).
Proof.
  unfold go_to_homepage, bind.
  destruct (get_current_page w) as [w1 [page|e]] eqn:Eg; [|discriminate].
  intros Hgoto.
  destruct (get_current_page_at_last _ w w1 page Eg) as (c & Hc & Hl).
  destruct (page_goto_context page _homepage w1 w' c Hc Hl Hgoto)
    as (c' & Hc' & Hl' & Ht & Hd).
  exists page, (trace w1). rewrite Hd.
  assert (Hp : get_current_page w' =
                 (w', Ok (page_at (landing w1 (length (trace w1)) _homepage)
                                  page))).
  { exact (get_current_page_open w' c' _ Hc' Hl'). }
  split; [exact Ht|]. split; [exact Hp|].
  unfold get_current_url, try_except, bind. rewrite Hp. reflexivity.
Qed.

(** X9: with no context and a browser type other than "chromium",
    get_current_page raises the ValueError of create_browser_context, from
    its handler, and get_current_url answers None; neither makes a call or
    changes the world. *)
Theorem get_current_page_unsupported (w : World) (self : Instance)
        (bt : string) :
  _instance w = Some self ->
  browser_type self = Some bt ->
  bt <> "chromium" ->
  _browser_context w = None ->
  get_current_page w =
    (w, Raise (Exn ValueError ("Unsupported browser type: " ++ bt)))
  /\ get_current_url w = (w, Ok None).
Proof.
  intros Hi Hb Hne Hc.
  assert (Hg : get_browser_context w =
               (w, Raise (Exn ValueError ("Unsupported browser type: " ++ bt)))).
  { unfold get_browser_context, ensure_browser_context, bind, gets.
    rewrite Hc, (create_browser_context_rejects w self bt Hi Hb Hne).
    reflexivity. }
  assert (Hw : set_browser_context None w = w).
  { destruct w. cbn in Hc. subst. reflexivity. }
  assert (Hp : get_current_page w =
    (w, Raise (Exn ValueError ("Unsupported browser type: " ++ bt)))).
  { change (get_current_page w)
      with (get_current_page_at (S (Nat.pred recursion_limit)) w).
    cbn [get_current_page_at]. unfold try_except, bind at 1.
    rewrite Hg. unfold bind, modify. rewrite Hw, Hg. reflexivity. }
  split; [exact Hp|].
  unfold get_current_url, try_except, bind. rewrite Hp. reflexivity.
Qed.

End ManagerMore.

Section Recovery.
Import Manager.

Lemma all_closed_no_open (ps : list Page) :
  Forall (fun x => page_closed x = true) ps ->
  last_page (filter is_open ps) = None.
Proof.
  intros H. induction H as [|p ps Hp _ IH]; [reflexivity|].
  cbn [filter]. unfold is_open at 1. rewrite Hp. exact IH.
Qed.

Lemma new_page_refused (b : BrowserContext) (w : World) (e : exn)
      (rest : list (option exn)) :
  faults w = Some e :: rest ->
  new_page b w = (set_faults rest (log (NewPage (ctx_id b)) w), Raise e).
Proof.
  intros Hf. unfold new_page, bind, await. cbn [faults log]. rewrite Hf.
  reflexivity.
Qed.

(** The first launch of [create_browser_context], when the browser accepts
    it. *)
Lemma create_browser_context_launches (w : World) (self : Instance)
      (pw : Playwright) (h : bool) :
  _instance w = Some self ->
  browser_type self = Some "chromium" ->
  isheadless self = Some h ->
  _playwright w = Some pw ->
  hd None (faults w) = None ->
  create_browser_context w =
    (set_browser_context (Some (launched w (configured_dir w) h))
       (set_next_id (S (S (next_id w)))
          (set_faults (tl (faults w))
             (log (LaunchPersistentContext (configured_dir w) h) w))),
     Ok tt).
Proof.
  intros Hi Hb Hh Hp Hf.
  unfold create_browser_context, bind at 1 2, gets, self_attr.
  rewrite Hi, Hb. change (String.eqb "chromium" "chromium") with true.
  cbv iota. unfold try_except. fold (configured_dir w).
  rewrite (launch_succeeds w self pw h (configured_dir w) Hi Hh Hp Hf).
  reflexivity.
Qed.

(** X10: get_current_page recovers from a context the browser has closed.
    When no page is open and new_page raises an [Exception], the context is
    dropped, a new persistent context is launched on the configured
    directory, and the blank tab it opens with is returned; the calls made
    are the refused new_page and the launch.  What new_page raises that is
    not an [Exception] leaves get_current_page at once, with the context as
    it was. *)
Theorem get_current_page_recovers (w : World) (self : Instance)
        (pw : Playwright) (h : bool) (c : BrowserContext) (e : exn)
        (rest : list (option exn)) :
  _instance w = Some self ->
  browser_type self = Some "chromium" ->
  isheadless self = Some h ->
  _playwright w = Some pw ->
  _browser_context w = Some c ->
  Forall (fun x => page_closed x = true) (pages c) ->
  faults w = Some e :: rest ->
  (is_Exception e = true ->
   hd None rest = None ->
   exists w',
     get_current_page w =
       (w', Ok (mkPage (S (next_id w)) "about:blank" false []))
     /\ _browser_context w' = Some (launched w (configured_dir w) h)
     /\ trace w' =
          (trace w ++ [NewPage (ctx_id c);
                       LaunchPersistentContext (configured_dir w) h])%list)
  /\ (is_Exception e = false ->
      get_current_page w =
        (set_faults rest (log (NewPage (ctx_id c)) w), Raise e)).
Proof.
  intros Hi Hb Hh Hp Hc Hall Hf.
  change (get_current_page w)
    with (get_current_page_at (S (S (Nat.pred (Nat.pred recursion_limit)))) w).
  rewrite (get_current_page_at_present _ w c Hc),
    (all_closed_no_open _ Hall), (new_page_refused c w e rest Hf).
  split; intros He; rewrite He; [|reflexivity].
  intros Hr.
  unfold bind at 1, modify. unfold bind at 1.
  set (w2 := set_browser_context None _).
  assert (Hg : get_browser_context w2 =
               (set_browser_context (Some (launched w2 (configured_dir w2) h))
                  (set_next_id (S (S (next_id w2)))
                     (set_faults (tl (faults w2))
                        (log (LaunchPersistentContext (configured_dir w2) h)
                             w2))),
                Ok (Some (launched w2 (configured_dir w2) h)))).
  { unfold get_browser_context, ensure_browser_context, bind at 1.
    unfold bind at 1, gets at 1.
    change (_browser_context w2) with (@None BrowserContext). cbv iota.
    rewrite (create_browser_context_launches w2 self pw h);
      try assumption; reflexivity. }
  rewrite Hg.
  set (w3 := set_browser_context _ _).
  rewrite (get_current_page_at_present _ w3 (launched w2 (configured_dir w2) h))
    by reflexivity.
  exists w3. split; [reflexivity|]. split; [reflexivity|].
  unfold w3, w2. cbn [trace set_browser_context set_next_id set_faults log].
  rewrite <- app_assoc. reflexivity.
Qed.

End Recovery.

(** *** Messages to the page *)

Section Messages.
Import Manager.

Variable escape_js_message : string -> string.

(** X11: with a ui_manager and an open page, notify_user hands the escaped
    message to the UI manager and then to addSystemMessage on the current
    page, and makes no other call.  It returns when page.evaluate returns
    or raises an [Exception]; what page.evaluate raises that is not an
    [Exception] leaves notify_user.  Without a ui_manager it raises
    AttributeError before doing anything. *)
Theorem notify_user_swallows (message : string) (w : World)
        (self : Instance) :
  _instance w = Some self ->
  (forall ui c q,
      ui_manager self = Some ui ->
      _browser_context w = Some c ->
      last_page (filter is_open (pages c)) = Some q ->
      exists w',
        notify_user escape_js_message message w =
          (w', match hd None (faults w) with
               | Some e => if is_Exception e then Ok tt else Raise e
               | None => Ok tt
               end)
        /\ trace w' =
             (trace w ++
                [UiNewSystemMessage (escape_js_message message);
                 Evaluate (page_id q)
                          ("addSystemMessage(" ++ escape_js_message message
                             ++ ", false);")])%list)
  /\ (ui_manager self = None ->
      notify_user escape_js_message message w =
        (w, Raise (self_has_no "ui_manager"))).
Proof.
  intros Hi. split.
  - intros ui c q Hu Hc Hl.
    unfold notify_user, bind at 1, self_attr. rewrite Hi, Hu.
    unfold bind at 1, call, try_except, bind.
    rewrite (get_current_page_open
               (log (UiNewSystemMessage (escape_js_message message)) w) c q)
      by assumption.
    unfold await. cbn [faults log trace].
    destruct (faults w) as [|[e|] rest]; cbn [hd];
      [|destruct (is_Exception e)|]; eexists;
      (split; [reflexivity|]); cbn [trace set_faults ret fst log];
      rewrite <- app_assoc; reflexivity.
  - intros Hu. unfold notify_user, bind, self_attr. rewrite Hi, Hu.
    reflexivity.
Qed.

(** X12: highlight_element lets no [Exception] out: whatever leaves it is
    not an [Exception] and was raised by the outside.  With an open page it
    makes exactly one eval_on_selector call, on the current page, with the
    script that adds the pulsating class or the one that removes it; it
    returns when that call returns or raises an [Exception]. *)
Theorem highlight_element_swallows (selector : string) (add_highlight : bool)
        (w : World) :
  (forall w' e,
      highlight_element selector add_highlight w = (w', Raise e) ->
      is_Exception e = false /\ In (Some e) (faults w))
  /\ (forall c q,
        _browser_context w = Some c ->
        last_page (filter is_open (pages c)) = Some q ->
        exists w',
          highlight_element selector add_highlight w =
            (w', match hd None (faults w) with
                 | Some e => if is_Exception e then Ok tt else Raise e
                 | None => Ok tt
                 end)
          /\ trace w' =
               (trace w ++
                  [EvalOnSelector (page_id q) selector
                     (if add_highlight then add_pulsate_js
                      else remove_pulsate_js)])%list).
Proof.
  split.
  - intros w' e H.
    destruct (passes_signals_highlight_element selector add_highlight w)
      as [_ Hsig].
    rewrite H in Hsig. cbn [snd] in Hsig.
    assert (Ex : is_Exception e = false).
    { revert H. unfold highlight_element, try_except.
      match goal with
      | |- context [let (_, _) := ?m w in _] =>
          destruct (m w) as [w1 [[]|e1]]
      end; [discriminate|].
      destruct (is_Exception e1) eqn:E1; [discriminate|].
      intros [= <- <-]. exact E1. }
    split; [exact Ex|]. now apply Hsig.
  - intros c q Hc Hl. unfold highlight_element, try_except, bind.
    rewrite (get_current_page_open w c q Hc Hl).
    unfold await. cbn [faults log trace].
    destruct add_highlight;
      (destruct (faults w) as [|[e|] rest]; cbn [hd];
       [|destruct (is_Exception e)|]; eexists;
       (split; [reflexivity|]); reflexivity).
Qed.

(** *** Responses outside the rendezvous *)

(** X13: responses do not queue: a second receive_user_response replaces the
    first one, and the world is the one the second call alone would leave. *)
Theorem receive_user_response_overwrites (r1 r2 : string) (w : World) :
  fst (receive_user_response r2 (fst (receive_user_response r1 w)))
  = fst (receive_user_response r2 w).
Proof.
  destruct w as [[[oid ini ad b hd [ev|] ur ui]|] pw ctx n dir fs tr land];
    reflexivity.
Qed.

(** X14: a response received while no prompt was pending leaves the event
    set, and the next prompt_user does not wait: it returns that earlier
    response at once (or fails before it gets to the event). *)
Theorem prompt_user_stale_response (message : string) (w : World) :
  is_set w = true ->
  match snd (prompt_user escape_js_message message w) with
  | Returned result => mailbox w = Some result
  | Failed _ => True
  | _ => False
  end.
Proof.
  intros Hs. unfold prompt_user, turn.
  pose proof (keeps_prompt_user_begin escape_js_message message w) as Hk.
  destruct (prompt_user_begin escape_js_message message w) as [w1 [[]|e]];
    cbn [fst snd] in *; [|exact I].
  assert (Hs1 : is_set w1 = true).
  { rewrite is_set_handshake, Hk, <- is_set_handshake. exact Hs. }
  rewrite Hs1.
  destruct (finish w1) as [w2 co] eqn:E. cbn [snd].
  unfold finish in E.
  destruct (prompt_user_end w1) as [w3 [r|e]] eqn:E2; inversion E; subst.
  - apply prompt_user_end_result in E2. destruct E2 as [Hm _].
    rewrite mailbox_handshake in *. rewrite <- Hk. exact Hm.
  - exact I.
Qed.


End Messages.

(** *** Closing tabs *)

Section Tabs.
Import Manager.

Lemma await_accepted (c : Call) (w : World) :
  accepts_all w ->
  await c w = (set_faults (tl (faults w)) (log c w), Ok tt).
Proof.
  intros Ha. unfold await. cbn [faults log].
  destruct w as [inst pw ctx n dir fs tr land]. unfold accepts_all in Ha.
  cbn in *. destruct fs as [|[e|] rest]; try reflexivity.
  exfalso. apply (Ha e). left. reflexivity.
Qed.

Lemma accepts_all_tl (c : Call) (w : World) :
  accepts_all w -> accepts_all (set_faults (tl (faults w)) (log c w)).
Proof.
  unfold accepts_all. cbn. intros Ha e Hin. apply (Ha e).
  destruct (faults w); [exact Hin|right; exact Hin].
Qed.

Lemma closed_page_twice (p : Page) : closed_page (closed_page p) = closed_page p.
Proof. reflexivity. Qed.

Lemma close_all_cons (i : nat) (ids : list nat) (ps : list Page) :
  close_all ids
    (map (fun p => if Nat.eqb (page_id p) i then closed_page p else p) ps)
  = close_all (i :: ids) ps.
Proof.
  unfold close_all. rewrite map_map. apply map_ext. intros p.
  cbn [existsb]. destruct (Nat.eqb (page_id p) i); cbn [orb page_id closed_page].
  - destruct (existsb _ ids); reflexivity.
  - reflexivity.
Qed.

(** Closing a list of pages one after the other, with a browser that
    accepts each call. *)
Lemma for_each_page_close (ps : list Page) (w : World) (c : BrowserContext) :
  _browser_context w = Some c ->
  accepts_all w ->
  exists w',
    for_each ps page_close w = (w', Ok tt)
    /\ _browser_context w' =
         Some (mkContext (ctx_id c) (ctx_user_dir c) (ctx_headless c)
                         (close_all (map page_id ps) (pages c))
                         (ctx_exposed c))
    /\ trace w' = (trace w ++ map (fun p => PageClose (page_id p)) ps)%list
    /\ _instance w' = _instance w.
Proof.
  revert w c. induction ps as [|q ps IH]; intros w c Hc Ha.
  - exists w. cbn [for_each map]. rewrite app_nil_r.
    split; [reflexivity|]. split; [|split; reflexivity].
    rewrite Hc. unfold close_all. cbn [existsb]. rewrite map_id.
    destruct c; reflexivity.
  - cbn [for_each]. unfold bind at 1. unfold page_close at 1.
    unfold bind at 1. rewrite (await_accepted _ w Ha). unfold modify.
    set (w1 := map_context _ _).
    assert (Hc1 : _browser_context w1 =
                  Some (update_page (page_id q)
                          (fun p => mkPage (page_id p) (page_url p) true
                                           (page_listeners p)) c)).
    { unfold w1, map_context. cbn. rewrite Hc. reflexivity. }
    assert (Ha1 : accepts_all w1).
    { unfold w1, map_context. cbn [_browser_context set_faults log].
      rewrite Hc. apply (accepts_all_tl (PageClose (page_id q)) w Ha). }
    destruct (IH w1 _ Hc1 Ha1) as (w' & E & Hctx & Htr & Hi).
    exists w'. split; [exact E|]. split; [|split].
    + rewrite Hctx. unfold update_page. cbn [ctx_id ctx_user_dir ctx_headless
        pages ctx_exposed map].
      rewrite <- close_all_cons. reflexivity.
    + rewrite Htr. unfold w1, map_context. cbn [_browser_context set_faults log].
      rewrite Hc. cbn [trace set_browser_context set_faults log map].
      rewrite <- app_assoc. reflexivity.
    + rewrite Hi. unfold w1, map_context.
      cbn [_browser_context set_faults log]. rewrite Hc. reflexivity.
Qed.

Lemma close_all_self (ps : list Page) :
  close_all (map page_id ps) ps = map closed_page ps.
Proof.
  unfold close_all. apply map_ext_in. intros p Hin.
  assert (H : existsb (Nat.eqb (page_id p)) (map page_id ps) = true).
  { apply existsb_exists. exists (page_id p). split.
    - now apply in_map.
    - apply Nat.eqb_refl. }
  now rewrite H.
Qed.

Lemma close_all_tail (p : Page) (rest : list Page) :
  NoDup (map page_id (p :: rest)) ->
  close_all (map page_id rest) (p :: rest) = p :: map closed_page rest.
Proof.
  intros Hnd. inversion Hnd as [|i l Hnotin Hnd']; subst.
  unfold close_all. cbn [map]. f_equal.
  - destruct (existsb (Nat.eqb (page_id p)) (map page_id rest)) eqn:E;
      [|reflexivity].
    exfalso. apply existsb_exists in E. destruct E as (i & Hin & Hi).
    apply Nat.eqb_eq in Hi. subst i. contradiction.
  - apply (close_all_self rest).
Qed.

(** X15: with a browser that accepts the calls and pages that are distinct
    objects, close_all_tabs closes every page but the first when
    keep_first_tab is set, and every page when it is not; it calls close()
    once per page it closes, in the order of the tabs. *)
Theorem close_all_tabs_closes (keep_first_tab : bool) (w : World)
        (c : BrowserContext) :
  _browser_context w = Some c ->
  accepts_all w ->
  NoDup (map page_id (pages c)) ->
  exists w' c',
    close_all_tabs keep_first_tab w = (w', Ok tt)
    /\ _browser_context w' = Some c'
    /\ pages c' =
         (if keep_first_tab
          then match pages c with
               | [] => []
               | first :: rest => first :: map closed_page rest
               end
          else map closed_page (pages c))
    /\ trace w' =
         (trace w ++ map (fun p => PageClose (page_id p))
                         (if keep_first_tab then tl (pages c) else pages c))%list.
Proof.
  intros Hc Ha Hnd. unfold close_all_tabs, bind.
  rewrite (get_browser_context_present w c Hc).
  destruct (for_each_page_close
              (if keep_first_tab then tl (pages c) else pages c) w c Hc Ha)
    as (w' & E & Hctx & Htr & _).
  eexists. eexists. split; [exact E|]. split; [exact Hctx|].
  split; [|exact Htr]. cbn [pages].
  destruct keep_first_tab.
  - destruct (pages c) as [|p rest]; [reflexivity|].
    cbn [tl]. now apply close_all_tail.
  - apply close_all_self.
Qed.

Lemma for_each_filter (keep : Page -> bool) (ps : list Page) (w : World) :
  for_each ps (fun page => if keep page then page_close page else ret tt) w
  = for_each (filter keep ps) page_close w.
Proof.
  revert w. induction ps as [|p ps IH]; intros w; [reflexivity|].
  cbn [for_each filter]. destruct (keep p).
  - cbn [for_each]. unfold bind.
    destruct (page_close p w) as [w1 [[]|e]]; [apply IH|reflexivity].
  - unfold bind, ret. apply IH.
Qed.

(** X16: with a browser that accepts the calls, close_except_specified_tab
    closes every page of the context but the one given, which it leaves as it
    is; a page that is not in the context protects nothing. *)
Theorem close_except_specified_tab_keeps (page_to_keep : Page) (w : World)
        (c : BrowserContext) :
  _browser_context w = Some c ->
  accepts_all w ->
  exists w' c',
    close_except_specified_tab page_to_keep w = (w', Ok tt)
    /\ _browser_context w' = Some c'
    /\ pages c' =
         map (fun p => if Nat.eqb (page_id p) (page_id page_to_keep)
                       then p else closed_page p) (pages c)
    /\ (~ In (page_id page_to_keep) (map page_id (pages c)) ->
        pages c' = map closed_page (pages c)).
Proof.
  intros Hc Ha. unfold close_except_specified_tab, bind.
  rewrite (get_browser_context_present w c Hc), for_each_filter.
  destruct (for_each_page_close
              (filter (fun page => negb (Nat.eqb (page_id page)
                                                 (page_id page_to_keep)))
                      (pages c)) w c Hc Ha)
    as (w' & E & Hctx & _ & _).
  assert (Hpages :
    close_all (map page_id
                 (filter (fun page => negb (Nat.eqb (page_id page)
                                                    (page_id page_to_keep)))
                         (pages c))) (pages c)
    = map (fun p => if Nat.eqb (page_id p) (page_id page_to_keep)
                    then p else closed_page p) (pages c)).
  { unfold close_all. apply map_ext_in. intros p Hin.
    destruct (Nat.eqb (page_id p) (page_id page_to_keep)) eqn:Ek.
    - destruct (existsb _ _) eqn:Ex; [|reflexivity].
      exfalso. apply existsb_exists in Ex. destruct Ex as (i & Hi & Heq).
      apply Nat.eqb_eq in Heq. subst i.
      apply in_map_iff in Hi. destruct Hi as (q & Hq & Hf).
      apply filter_In in Hf. destruct Hf as [_ Hf].
      rewrite Hq, Ek in Hf. discriminate.
    - assert (Hx : existsb (Nat.eqb (page_id p))
                     (map page_id
                        (filter (fun page => negb (Nat.eqb (page_id page)
                                                  (page_id page_to_keep)))
                                (pages c))) = true).
      { apply existsb_exists. exists (page_id p). split.
        - apply in_map. apply filter_In. split; [exact Hin|].
          now rewrite Ek.
        - apply Nat.eqb_refl. }
      now rewrite Hx. }
  eexists. eexists. split; [exact E|]. split; [exact Hctx|].
  cbn [pages]. split; [exact Hpages|].
  intros Hnot. rewrite Hpages. apply map_ext_in. intros p Hin.
  destruct (Nat.eqb (page_id p) (page_id page_to_keep)) eqn:Ek; [|reflexivity].
  exfalso. apply Hnot. apply Nat.eqb_eq in Ek. rewrite <- Ek.
  now apply in_map.
Qed.

End Tabs.

(** *** What writes to the instance *)

Section SelfUntouched.
Import Manager.

Lemma keeps_self_ret {A : Type} (a : A) : keeps_self (ret a).
Proof. intros w. reflexivity. Qed.

Lemma keeps_self_raise {A : Type} (e : exn) : keeps_self (@raise A e).
Proof. intros w. reflexivity. Qed.

Lemma keeps_self_bind {A B : Type} (m : M A) (k : A -> M B) :
  keeps_self m -> (forall a, keeps_self (k a)) -> keeps_self (bind m k).
Proof.
  intros Hm Hk w. unfold bind. specialize (Hm w).
  destruct (m w) as [w1 [a|e]]; cbn [fst] in *.
  - rewrite (Hk a w1). exact Hm.
  - exact Hm.
Qed.

Lemma keeps_self_try_except {A : Type} (body : M A) (handler : exn -> M A) :
  keeps_self body -> (forall e, keeps_self (handler e)) ->
  keeps_self (try_except body handler).
Proof.
  intros Hb Hh w. unfold try_except. specialize (Hb w).
  destruct (body w) as [w1 [a|e]]; cbn [fst] in *.
  - exact Hb.
  - destruct (is_Exception e); [|exact Hb].
    rewrite (Hh e w1). exact Hb.
Qed.

Lemma keeps_self_gets {A : Type} (f : World -> A) : keeps_self (gets f).
Proof. intros w. reflexivity. Qed.

Lemma keeps_self_fresh : keeps_self fresh.
Proof. intros w. reflexivity. Qed.

Lemma keeps_self_call (c : Call) : keeps_self (call c).
Proof. intros w. reflexivity. Qed.

Lemma keeps_self_await (c : Call) : keeps_self (await c).
Proof.
  intros w. unfold await. cbn [faults log].
  destruct (faults w) as [|[e|] rest]; reflexivity.
Qed.

Lemma keeps_self_set_playwright (p : option Playwright) :
  keeps_self (modify (set_playwright p)).
Proof. intros w. reflexivity. Qed.

Lemma keeps_self_set_browser_context (c : option BrowserContext) :
  keeps_self (modify (set_browser_context c)).
Proof. intros w. reflexivity. Qed.

Lemma keeps_self_map_context (f : BrowserContext -> BrowserContext) :
  keeps_self (modify (map_context f)).
Proof.
  intros w. unfold modify, map_context. cbn [fst].
  destruct (_browser_context w); reflexivity.
Qed.

Lemma keeps_self_self_get {A : Type} (attr : string) (get : Instance -> A) :
  keeps_self (self_get attr get).
Proof.
  intros w. unfold self_get.
  destruct (_instance w) eqn:E; cbn [fst]; exact E.
Qed.

Lemma keeps_self_self_attr {A : Type} (attr : string)
      (get : Instance -> option A) : keeps_self (self_attr attr get).
Proof.
  intros w. unfold self_attr.
  destruct (_instance w) as [i|] eqn:E; [|exact E].
  destruct (get i); exact E.
Qed.

Lemma keeps_self_for_each {A : Type} (xs : list A) (body : A -> M unit) :
  (forall x, keeps_self (body x)) -> keeps_self (for_each xs body).
Proof.
  intros Hb. induction xs as [|x xs IH]; cbn [for_each].
  - apply keeps_self_ret.
  - apply keeps_self_bind; [apply Hb|intros _; exact IH].
Qed.

Create HintDb keeps_self.

#[local] Hint Resolve keeps_self_ret keeps_self_raise keeps_self_gets
  keeps_self_fresh keeps_self_call keeps_self_await
  keeps_self_set_playwright keeps_self_set_browser_context
  keeps_self_map_context keeps_self_self_get keeps_self_self_attr
  : keeps_self.

Ltac self_steps :=
  repeat match goal with
         | |- keeps_self (bind _ _) => apply keeps_self_bind
         | |- keeps_self (try_except _ _) => apply keeps_self_try_except
         | |- keeps_self (for_each _ _) => apply keeps_self_for_each
         | |- forall _, _ => intro
         | |- keeps_self (match ?x with _ => _ end) => destruct x
         | |- keeps_self _ => solve [auto with keeps_self]
         end.

Lemma keeps_self_start_playwright : keeps_self start_playwright.
Proof. unfold start_playwright. self_steps. Qed.

Lemma keeps_self_stop_playwright : keeps_self stop_playwright.
Proof. unfold stop_playwright. self_steps. Qed.

Lemma keeps_self_launch_persistent_context (dir : Path) :
  keeps_self (launch_persistent_context dir).
Proof. unfold launch_persistent_context. self_steps. Qed.

Lemma keeps_self_create_browser_context : keeps_self create_browser_context.
Proof.
  pose proof keeps_self_launch_persistent_context.
  unfold create_browser_context, mkdtemp. self_steps.
Qed.

Lemma keeps_self_ensure_browser_context : keeps_self ensure_browser_context.
Proof.
  pose proof keeps_self_create_browser_context.
  unfold ensure_browser_context. self_steps.
Qed.

Lemma keeps_self_get_browser_context : keeps_self get_browser_context.
Proof.
  pose proof keeps_self_ensure_browser_context.
  unfold get_browser_context. self_steps.
Qed.

Lemma keeps_self_new_page (b : BrowserContext) : keeps_self (new_page b).
Proof. unfold new_page. self_steps. Qed.

Lemma keeps_self_page_close (page : Page) : keeps_self (page_close page).
Proof. unfold page_close. self_steps. Qed.

Lemma keeps_self_page_goto (page : Page) (url : string) :
  keeps_self (page_goto page url).
Proof. unfold page_goto. self_steps. Qed.

Lemma keeps_self_page_on (page : Page) (event : string) :
  keeps_self (page_on page event).
Proof. unfold page_on. self_steps. Qed.

Lemma keeps_self_expose_function (c : option BrowserContext) (name : string) :
  keeps_self (expose_function c name).
Proof. unfold expose_function. self_steps. Qed.

Lemma keeps_self_get_current_page_at (depth : nat) :
  keeps_self (get_current_page_at depth).
Proof.
  pose proof keeps_self_get_browser_context. pose proof keeps_self_new_page.
  induction depth as [|depth IH]; cbn [get_current_page_at]; self_steps.
Qed.

Lemma keeps_self_get_current_page : keeps_self get_current_page.
Proof. apply keeps_self_get_current_page_at. Qed.

#[local] Hint Resolve keeps_self_start_playwright keeps_self_stop_playwright
  keeps_self_create_browser_context keeps_self_ensure_browser_context
  keeps_self_get_browser_context keeps_self_new_page keeps_self_page_close
  keeps_self_page_goto keeps_self_page_on keeps_self_expose_function
  keeps_self_get_current_page : keeps_self.

Lemma keeps_self_get_current_url : keeps_self get_current_url.
Proof. unfold get_current_url. self_steps. Qed.

Lemma keeps_self_close_all_tabs (keep_first_tab : bool) :
  keeps_self (close_all_tabs keep_first_tab).
Proof. unfold close_all_tabs. self_steps. Qed.

Lemma keeps_self_close_except_specified_tab (page_to_keep : Page) :
  keeps_self (close_except_specified_tab page_to_keep).
Proof. unfold close_except_specified_tab. self_steps. Qed.

Lemma keeps_self_go_to_homepage : keeps_self go_to_homepage.
Proof. unfold go_to_homepage. self_steps. Qed.

Lemma keeps_self_set_navigation_handler : keeps_self set_navigation_handler.
Proof. unfold set_navigation_handler. self_steps. Qed.

Lemma keeps_self_set_overlay_state_handler :
  keeps_self set_overlay_state_handler.
Proof. unfold set_overlay_state_handler. self_steps. Qed.

Lemma keeps_self_set_user_response_handler :
  keeps_self set_user_response_handler.
Proof. unfold set_user_response_handler. self_steps. Qed.

Lemma keeps_self_setup_handlers : keeps_self setup_handlers.
Proof.
  pose proof keeps_self_set_navigation_handler.
  pose proof keeps_self_set_overlay_state_handler.
  pose proof keeps_self_set_user_response_handler.
  unfold setup_handlers. self_steps.
Qed.

Lemma keeps_self_overlay_state_handler (is_collapsed : bool) :
  keeps_self (overlay_state_handler is_collapsed).
Proof. unfold overlay_state_handler. self_steps. Qed.

Lemma keeps_self_log_user_message (message : string) :
  keeps_self (log_user_message message).
Proof. unfold log_user_message. self_steps. Qed.

Lemma keeps_self_log_system_message (message : string) :
  keeps_self (log_system_message message).
Proof. unfold log_system_message. self_steps. Qed.

Lemma keeps_self_command_completed (command : string)
      (elapsed_time : option PyFloat.float) :
  keeps_self (command_completed command elapsed_time).
Proof. unfold command_completed. self_steps. Qed.

Lemma keeps_self_highlight_element (selector : string)
      (add_highlight : bool) :
  keeps_self (highlight_element selector add_highlight).
Proof. unfold highlight_element. self_steps. Qed.

Variable escape_js_message : string -> string.

Lemma keeps_self_notify_user (message : string) :
  keeps_self (notify_user escape_js_message message).
Proof. unfold notify_user. self_steps. Qed.

Lemma keeps_self_prompt_user_begin (message : string) :
  keeps_self (prompt_user_begin escape_js_message message).
Proof.
  pose proof keeps_self_log_system_message.
  unfold prompt_user_begin. self_steps.
Qed.

(** X17: only four entry points write an attribute of the instance: the
    constructor, async_initialize, receive_user_response and prompt_user.
    Every other method leaves the instance exactly as it was, whatever the
    browser does. *)
Theorem instance_untouched (m : Method) (w : World) :
  is_receive_user_response m = false ->
  is_prompt_user m = false ->
  m <> call_async_initialize ->
  (forall bt h g, m <> call_PlaywrightManager bt h g) ->
  _instance (invoke escape_js_message m w) = _instance w.
Proof.
  intros Hr Hp Ha Hc.
  destruct m; cbn in Hr, Hp; try discriminate; cbn [invoke];
    try contradiction.
  - exfalso. eapply Hc. reflexivity.
  - apply keeps_self_ensure_browser_context.
  - apply keeps_self_setup_handlers.
  - apply keeps_self_start_playwright.
  - apply keeps_self_stop_playwright.
  - apply keeps_self_create_browser_context.
  - apply keeps_self_get_browser_context.
  - apply keeps_self_get_current_url.
  - apply keeps_self_get_current_page.
  - apply keeps_self_close_all_tabs.
  - apply keeps_self_close_except_specified_tab.
  - apply keeps_self_go_to_homepage.
  - apply keeps_self_set_navigation_handler.
  - apply keeps_self_set_overlay_state_handler.
  - apply keeps_self_overlay_state_handler.
  - apply keeps_self_set_user_response_handler.
  - apply keeps_self_notify_user.
  - apply keeps_self_highlight_element.
  - apply keeps_self_log_user_message.
  - apply keeps_self_log_system_message.
  - apply keeps_self_command_completed.
Qed.

(** A failed initialization leaves the attributes of [self] alone. *)
Lemma async_initialize_raises_self (w w' : World) (e : exn) :
  async_initialize w = (w', Raise e) -> _instance w' = _instance w.
Proof.
  unfold async_initialize, bind, self_get.
  destruct (_instance w) as [i|] eqn:Hi; [|intros [= <- _]; exact Hi].
  destruct (__async_initialize_done i); [discriminate|].
  pose proof (keeps_self_start_playwright w) as H1.
  destruct (start_playwright w) as [w1 [[]|e1]]; cbn [fst] in H1;
    [|intros [= <- _]; congruence].
  pose proof (keeps_self_ensure_browser_context w1) as H2.
  destruct (ensure_browser_context w1) as [w2 [[]|e2]]; cbn [fst] in H2;
    [|intros [= <- _]; congruence].
  pose proof (keeps_self_setup_handlers w2) as H3.
  destruct (setup_handlers w2) as [w3 [[]|e3]]; cbn [fst] in H3;
    [|intros [= <- _]; congruence].
  pose proof (keeps_self_go_to_homepage w3) as H4.
  destruct (go_to_homepage w3) as [w4 [[]|e4]]; cbn [fst] in H4;
    [|intros [= <- _]; congruence].
  unfold self_set. destruct (_instance w4) eqn:E4; [discriminate|].
  intros [= <- _]. congruence.
Qed.

(** X18: an async_initialize that raises has not written to the instance: the
    flag stays down and the next call goes through the steps again. *)
Theorem async_initialize_failed (w w' : World) (e : exn) :
  async_initialize w = (w', Raise e) -> _instance w' = _instance w.
Proof. exact (async_initialize_raises_self w w' e). Qed.

(** X19: a manager built with gui_input_mode=False has no ui_manager, and its
    async_initialize can never finish: set_navigation_handler needs the
    attribute.  The call raises, and the flag stays down. *)
Theorem async_initialize_needs_ui_manager (w : World) (self : Instance) :
  _instance w = Some self ->
  ui_manager self = None ->
  __async_initialize_done self = false ->
  exists w' e,
    async_initialize w = (w', Raise e) /\ _instance w' = Some self.
Proof.
  intros Hi Hu Hd.
  destruct (async_initialize w) as [w' [[]|e]] eqn:E.
  - exfalso. revert E. unfold async_initialize, bind at 1, self_get.
    rewrite Hi, Hd. unfold bind at 1.
    pose proof (keeps_self_start_playwright w) as H1.
    destruct (start_playwright w) as [w1 [[]|e1]]; cbn [fst] in H1;
      [|discriminate].
    unfold bind at 1.
    pose proof (keeps_self_ensure_browser_context w1) as H2.
    destruct (ensure_browser_context w1) as [w2 [[]|e2]]; cbn [fst] in H2;
      [|discriminate].
    unfold bind at 1.
    assert (Hs : forall w3, setup_handlers w2 <> (w3, Ok tt)).
    { intros w3. unfold setup_handlers, bind at 1.
      pose proof (keeps_self_set_overlay_state_handler w2) as H3.
      destruct (set_overlay_state_handler w2) as [wa [[]|ea]];
        cbn [fst] in H3; [|discriminate].
      unfold bind at 1.
      pose proof (keeps_self_set_user_response_handler wa) as H4.
      destruct (set_user_response_handler wa) as [wb [[]|eb]];
        cbn [fst] in H4; [|discriminate].
      unfold set_navigation_handler, bind at 1.
      pose proof (keeps_self_get_current_page wb) as H5.
      destruct (get_current_page wb) as [wc [page|ec]];
        cbn [fst] in H5; [|discriminate].
      unfold bind, self_attr.
      assert (Hc : _instance wc = Some self) by congruence.
      rewrite Hc, Hu. discriminate. }
    destruct (setup_handlers w2) as [w3 [[]|e3]]; [|discriminate].
    exfalso. now apply (Hs w3).
  - exists w', e. split; [reflexivity|].
    rewrite (async_initialize_raises_self w w' e E). exact Hi.
Qed.

End SelfUntouched.

(** ** The further statements at concrete worlds *)

Section MoreInstances.
Import Manager.

(** [pause_flow(2)] *)
Lemma pause_flow_int_singular_witness :
  PauseFlow.pause_flow PyFloat.repr_whole (PauseFlow.DInt 2) =
    ([PauseFlow.Sleep (S754_finite false 4503599627370496 (-51))],
     Ok "Paused for 2.0 seconds.").
Proof.
  apply (pause_flow_int_singular PyFloat.repr_whole 2
           (S754_finite false 4503599627370496 (-51))).
  - reflexivity.
  - discriminate.
Defined.

(** [pause_flow(3)] with a sleep that fails with something that is not a
    ValueError. *)
Lemma pause_flow_raises_only_ValueError_witness :
  let failed := Exn OtherError "loop closed" in
  let r := snd (PauseFlow.pause_flow_with PyFloat.repr_whole (Some failed)
                  (PauseFlow.DInt 3)) in
  r = Raise (Exn ValueError "Error while pausing: loop closed")
  /\ forall e, r = Raise e ->
                is_ValueError e = true
                \/ (Some failed = Some e /\ is_Exception e = false).
Proof.
  intros failed r. split; [reflexivity|].
  exact (proj1 (pause_flow_raises_only_ValueError PyFloat.repr_whole
                  (Some failed) (PauseFlow.DInt 3)
                  [PauseFlow.Sleep (S754_finite false 6755399441055744 (-51))]
                  (Raise (Exn ValueError "Error while pausing: loop closed"))
                  eq_refl)).
Defined.

(** Stopping the ready manager. *)
Lemma stop_playwright_resets_witness :
  _browser_context (fst (stop_playwright ready_world)) = None
  /\ _playwright (fst (stop_playwright ready_world)) = None.
Proof.
  destruct (stop_playwright_resets ready_world) as [Hreset _].
  apply Hreset. lazy. reflexivity.
Defined.

Lemma get_browser_context_returns_witness :
  exists c, snd (get_browser_context ready_world) = Ok (Some c)
            /\ _browser_context ready_world = Some c.
Proof.
  destruct (get_browser_context_returns ready_world ready_world
              (_browser_context ready_world)) as (c & Hr & Hc).
  - lazy. reflexivity.
  - exists c. split; [|exact Hc]. rewrite <- Hr. lazy. reflexivity.
Defined.

Lemma get_current_page_result_witness :
  exists page c before after,
    get_current_page three_tab_world = (three_tab_world, Ok page)
    /\ _browser_context three_tab_world = Some c
    /\ pages c = (before ++ page :: after)%list
    /\ page_closed page = false.
Proof.
  assert (E : get_current_page three_tab_world =
              (three_tab_world, Ok (mkPage 7 "about:blank" false [])))
    by (lazy; reflexivity).
  destruct (get_current_page_result _ _ _ E)
    as (c & before & after & Hc & Hps & Hq & _).
  exists (mkPage 7 "about:blank" false []), c, before, after. auto.
Defined.

(** The third tab sent to the homepage, in a browser that reports the
    address with the path it added. *)
Lemma go_to_homepage_then_url_witness :
  let w := fst (go_to_homepage three_tab_world) in
  get_current_url w = (w, Ok (Some "https://www.google.com/"))
  /\ exists calls, trace w = (calls ++ [Goto 7 _homepage])%list.
Proof.
  intros w.
  destruct (go_to_homepage_then_url three_tab_world w)
    as (page & calls & Ht & Hp & Hu).
  - lazy. reflexivity.
  - split; [exact Hu|]. exists calls. rewrite Ht.
    assert (E : get_current_page w =
                (w, Ok (mkPage 7 "https://www.google.com/" false [])))
      by (lazy; reflexivity).
    rewrite E in Hp.
    assert (Hid : page_id (page_at (landing w (length calls) _homepage) page)
                  = page_id (mkPage 7 "https://www.google.com/" false []))
      by congruence.
    cbn [page_id page_at] in Hid. rewrite Hid. reflexivity.
Defined.

Lemma get_current_page_unsupported_witness :
  let w := fst (PlaywrightManager "webkit" true true
                                  (fresh_world None [] with_path))
  in
  get_current_page w =
    (w, Raise (Exn ValueError "Unsupported browser type: webkit"))
  /\ get_current_url w = (w, Ok None).
Proof.
  intros w. eapply (get_current_page_unsupported w _ "webkit").
  - lazy. reflexivity.
  - reflexivity.
  - discriminate.
  - reflexivity.
Defined.

(** Every tab closed, and a browser that refuses the next call. *)
Lemma get_current_page_recovers_witness :
  let closed := Exn PlaywrightError
                    "Target page, context or browser has been closed" in
  let w := set_faults [Some closed]
                      (fst (close_all_tabs false ready_world)) in
  exists w',
    get_current_page w = (w', Ok (mkPage 7 "about:blank" false []))
    /\ option_map ctx_id (_browser_context w') = Some 6.
Proof.
  intros closed w.
  assert (H : exists self pw c,
             _instance w = Some self /\ browser_type self = Some "chromium"
             /\ isheadless self = Some false /\ _playwright w = Some pw
             /\ _browser_context w = Some c
             /\ map page_closed (pages c) = [true]
             /\ next_id w = 6).
  { lazy. eexists. eexists. eexists. repeat split. }
  destruct H as (self & pw & c & H1 & H2 & H3 & H4 & H5 & H6 & H7).
  destruct (get_current_page_recovers w self pw false c closed []
              H1 H2 H3 H4 H5) as [Hrecovers _].
  - destruct (pages c) as [|p [|p' ps]]; try discriminate.
    inversion H6. repeat constructor; assumption.
  - reflexivity.
  - destruct (Hrecovers eq_refl eq_refl) as (w' & E & Hctx & _).
    exists w'. rewrite H7 in E. split; [exact E|].
    rewrite Hctx. unfold launched. cbn [option_map ctx_id].
    rewrite H7. reflexivity.
Defined.

(** A page that refuses the script, and a task cancelled at
    page.evaluate. *)
Lemma notify_user_swallows_witness :
  let refused := Exn PlaywrightError "Execution context was destroyed" in
  (exists w',
      notify_user (fun message => message) "Done"
                  (set_faults [Some refused] ready_world) = (w', Ok tt)
      /\ trace w' =
           (trace ready_world ++
              [UiNewSystemMessage "Done";
               Evaluate 5 "addSystemMessage(Done, false);"])%list)
  /\ (exists w',
        notify_user (fun message => message) "Done"
                    (set_faults [Some Cancelled] ready_world)
          = (w', Raise Cancelled)).
Proof.
  intros refused.
  assert (H : exists self, _instance ready_world = Some self
                           /\ ui_manager self = Some 2)
    by (lazy; eexists; split; reflexivity).
  destruct H as (self & Hi & Hu).
  split.
  - destruct (notify_user_swallows (fun message => message) "Done"
                (set_faults [Some refused] ready_world) self Hi)
      as [Hok _].
    eapply (Hok 2 _ (mkPage 5 "https://www.google.com/" false
                            ["domcontentloaded"]) Hu).
    + lazy. reflexivity.
    + reflexivity.
  - destruct (notify_user_swallows (fun message => message) "Done"
                (set_faults [Some Cancelled] ready_world) self Hi)
      as [Hok _].
    destruct (Hok 2 (context_of ready_world)
                (mkPage 5 "https://www.google.com/" false
                        ["domcontentloaded"]) Hu)
      as (w' & E & _).
    + lazy. reflexivity.
    + reflexivity.
    + exists w'. exact E.
Defined.

(** A selector that matches nothing, and a task cancelled at
    page.eval_on_selector. *)
Lemma highlight_element_swallows_witness :
  let missing := Exn PlaywrightError "Failed to find element" in
  (exists w',
      highlight_element "#q" true (set_faults [Some missing] ready_world)
        = (w', Ok tt)
      /\ trace w' =
           (trace ready_world ++ [EvalOnSelector 5 "#q" add_pulsate_js])%list)
  /\ (forall w' e,
        highlight_element "#q" true (set_faults [Some Cancelled] ready_world)
          = (w', Raise e) ->
        e = Cancelled).
Proof.
  intros missing. split.
  - destruct (highlight_element_swallows "#q" true
                (set_faults [Some missing] ready_world)) as [_ Hone].
    eapply (Hone _ (mkPage 5 "https://www.google.com/" false
                           ["domcontentloaded"])).
    + lazy. reflexivity.
    + reflexivity.
  - intros w' e H.
    destruct (highlight_element_swallows "#q" true
                (set_faults [Some Cancelled] ready_world)) as [Hsig _].
    destruct (Hsig w' e H) as [_ [Hin|[]]]. congruence.
Defined.


(** An answer given before anything was asked. *)
Lemma prompt_user_stale_response_witness :
  let w := fst (receive_user_response "yes" ready_world) in
  snd (prompt_user (fun message => message) "Proceed?" w) = Returned "yes"
  /\ mailbox w = Some "yes".
Proof.
  intros w.
  pose proof (prompt_user_stale_response (fun message => message)
                "Proceed?" w eq_refl) as H.
  assert (E : snd (prompt_user (fun message => message) "Proceed?" w)
              = Returned "yes") by (lazy; reflexivity).
  rewrite E in H. split; [exact E|exact H].
Defined.

Lemma close_all_tabs_closes_witness :
  exists w' c',
    close_all_tabs true three_tab_world = (w', Ok tt)
    /\ _browser_context w' = Some c'
    /\ map page_closed (pages c') = [false; true; true]
    /\ trace w' = (trace three_tab_world ++ [PageClose 6; PageClose 7])%list.
Proof.
  destruct (close_all_tabs_closes true three_tab_world
              (context_of three_tab_world))
    as (w' & c' & E & Hc' & Hps & Htr).
  - lazy. reflexivity.
  - intros e Hin. exact Hin.
  - lazy. repeat constructor; cbn; intuition discriminate.
  - exists w', c'. split; [exact E|]. split; [exact Hc'|]. split.
    + rewrite Hps. lazy. reflexivity.
    + rewrite Htr. reflexivity.
Defined.

Lemma close_except_specified_tab_keeps_witness :
  exists w' c',
    close_except_specified_tab (mkPage 6 "about:blank" false [])
                               three_tab_world = (w', Ok tt)
    /\ _browser_context w' = Some c'
    /\ map page_closed (pages c') = [true; false; true].
Proof.
  destruct (close_except_specified_tab_keeps
              (mkPage 6 "about:blank" false []) three_tab_world
              (context_of three_tab_world))
    as (w' & c' & E & Hc' & Hps & _).
  - lazy. reflexivity.
  - intros e Hin. exact Hin.
  - exists w', c'. split; [exact E|]. split; [exact Hc'|].
    rewrite Hps. lazy. reflexivity.
Defined.

Lemma instance_untouched_witness :
  _instance (invoke (fun message => message) call_stop_playwright ready_world)
  = _instance ready_world.
Proof.
  apply (instance_untouched (fun message => message)
           call_stop_playwright ready_world).
  - reflexivity.
  - reflexivity.
  - discriminate.
  - discriminate.
Defined.

(** A manager without UI manager, initialized. *)
Lemma async_initialize_failed_witness :
  _instance (fst (async_initialize no_ui_world)) = _instance no_ui_world.
Proof.
  eapply (async_initialize_failed no_ui_world _
            (self_has_no "ui_manager")).
  lazy. reflexivity.
Defined.

Lemma async_initialize_needs_ui_manager_witness :
  exists w' e, async_initialize no_ui_world = (w', Raise e)
               /\ option_map __async_initialize_done (_instance w')
                  = Some false.
Proof.
  destruct (async_initialize_needs_ui_manager no_ui_world
              (mkInstance 0 true false (Some "chromium") (Some false)
                          (Some (mkEvent 1 false)) None None))
    as (w' & e & E & Hi).
  - lazy. reflexivity.
  - reflexivity.
  - reflexivity.
  - exists w', e. split; [exact E|]. rewrite Hi. reflexivity.
Defined.

End MoreInstances.
